(** * RandRest: random sequences with restrictions

    A shallow embedding of [randrest] from the notebook [RandRest.ipynb],
    and the properties of its draw-check-retry loop.

    Conventions of the embedding.
    - The pool holds values of an arbitrary type [V] with decidable
      equality (numbers other than NaN); [Vle] is the order [np.unique]
      sorts by.
    - Python integers are [Z]. Floats are IEEE 754 binary64 numbers, with
      the operations of [SpecFloat] (round to nearest, ties to even): the
      band of the balance check is computed and compared as line 76 does.
    - [balance] is given as a rational, the exact value of the integer or
      float that is passed (a float has a power of 2 as denominator and
      converts exactly; any other rational is rounded to the nearest
      float, as its decimal literal would be).
    - [repeat] and [balance] are [option]s: [None] is the default [False].
      Python tests them by truthiness, so [Some 0] is as false as [None].
    - [np.random.choice] reads a stream of raw naturals; element [j] of a
      candidate is [pool[raw mod len(pool)]].  The state counts the
      candidates drawn and the executions of the loop body.
    - The [while] loop is a fixpoint on a fuel argument; [None] as outcome
      means the fuel ran out before the loop ended. *)

From stdpp Require Import base decidable list numbers sorting.
From Stdlib Require Import QArith SpecFloat.

Local Open Scope Z_scope.
Local Set Warnings "-clear-no-such-hyp".

(** ** Python and numpy primitives *)

Module Np.

(** A slice bound as Python normalises it for a sequence of length [len]:
    a negative bound counts from the end, and both are clamped. *)
Definition norm_index (len i : Z) : Z :=
  if decide (i < 0) then Z.max 0 (i + len) else Z.min i len.

(** [l[start:stop]] *)
Definition slice {A} (l : list A) (start stop : Z) : list A :=
  let len := Z.of_nat (length l) in
  let s := norm_index len start in
  let e := norm_index len stop in
  take (Z.to_nat (e - s)) (drop (Z.to_nat s) l).

(** [l[:-1]] *)
Definition init {A} (l : list A) : list A := slice l 0 (-1).

(** A boolean numpy value: the Python scalar [True]/[False], or an array. *)
Inductive ndbool :=
  | Scalar (b : bool)
  | Arr (bs : list bool).

(** [x *= ys] for a boolean [x] and a boolean array [ys]: a scalar is
    broadcast, two arrays are multiplied element by element. *)
Definition mul (x : ndbool) (ys : list bool) : ndbool :=
  match x with
  | Scalar b => Arr (andb b <$> ys)
  | Arr xs => Arr (zip_with andb xs ys)
  end.

(** [np.any(x)] *)
Definition any (x : ndbool) : bool :=
  match x with
  | Scalar b => b
  | Arr bs => existsb id bs
  end.

(** Binary64: 53 bits of mantissa, exponent of the infinities 1024. *)
Definition prec : Z := 53.
Definition emax : Z := 1024.

(** [float(z)] for an integer, and the float operations [/], [+], [-]
    and [<]. *)
Definition float_of_Z (z : Z) : spec_float :=
  binary_normalize prec emax z 0 false.
Definition fdiv : spec_float → spec_float → spec_float := SFdiv prec emax.
Definition fadd : spec_float → spec_float → spec_float := SFadd prec emax.
Definition fsub : spec_float → spec_float → spec_float := SFsub prec emax.
Definition fltb : spec_float → spec_float → bool := SFltb.

(** [Some k] when [p] is [2^k]. *)
Fixpoint log2_exact (p : positive) : option Z :=
  match p with
  | xH => Some 0
  | xO p' => Z.succ <$> log2_exact p'
  | xI _ => None
  end.

(** The float a rational stands for: [num * 2^-k], rounded once, when
    the denominator is [2^k] (every integer and every float converts to
    itself when it fits), and the rounded quotient otherwise. *)
Definition float_of_Q (x : Q) : spec_float :=
  match log2_exact (Qden x) with
  | Some k => binary_normalize prec emax (Qnum x) (- k) false
  | None => fdiv (float_of_Z (Qnum x)) (float_of_Z (Zpos (Qden x)))
  end.

(** Truthiness of the two optional arguments. *)
Definition truthyZ (x : option Z) : bool :=
  match x with
  | None => false
  | Some r => bool_decide (r ≠ 0)
  end.

Definition truthyQ (x : option Q) : bool :=
  match x with
  | None => false
  | Some b => negb (Qeq_bool b 0)
  end.

Section values.
Context {V : Type} `{EqDecision V} (Vle : relation V) `{!RelDecision Vle}.

(** [xs == ys] on two arrays of the same shape *)
Definition eq_arr (xs ys : list V) : list bool :=
  zip_with (λ x y, bool_decide (x = y)) xs ys.

(** Number of occurrences of [v] in [l]. *)
Definition count (v : V) (l : list V) : nat :=
  length (filter (λ x, x = v) l).

(** [np.unique(l, return_counts=True)]: the sorted distinct values of
    [l], and for each of them how often it occurs in [l]. *)
Definition unique (l : list V) : list V * list nat :=
  let values := merge_sort Vle (remove_dups l) in
  (values, (λ v, count v l) <$> values).
End values.

End Np.

(** ** The generator *)

Module RandRest.
Import Np.

(** State threaded through a call: position in the random stream, number
    of candidates drawn, number of executions of the loop body. *)
Record state := State { pos : nat; draws : nat; iters : nat }.

Definition st0 : state := State 0 0 0.

Definition enter_loop (st : state) : state :=
  State (pos st) (draws st) (S (iters st)).

Section generator.
Context {V : Type} `{EqDecision V} (Vle : relation V) `{!RelDecision Vle}.

(** What a call ends with. [ValueError] is what [np.random.choice]
    raises for an empty pool or a negative size. *)
Inductive outcome :=
  | Returned (samples values : list V) (counts : list nat)
  | StopIteration (maxit : Z)
  | ValueError.

(** [k] elements of [pool], picked by the raw numbers the stream holds
    from position [p] on ([d] is never used: the index is in range). *)
Definition candidate (stream : nat → nat) (pool : list V) (d : V)
    (k p : nat) : list V :=
  (λ j, nth (stream (p + j)%nat mod length pool)%nat pool d) <$> seq 0 k.

(** [np.random.choice(pool, size)]: it raises for an empty pool and for a
    negative size, and otherwise draws [size] elements. (For an empty pool
    and size 0 later versions of numpy return an empty array; no property
    below depends on that case.) *)
Definition choice (stream : nat → nat) (pool : list V) (size : Z)
    (st : state) : option (list V) * state :=
  match pool with
  | [] => (None, st)
  | d :: _ =>
      if decide (size < 0) then (None, st)
      else
        let k := Z.to_nat size in
        (Some (candidate stream pool d k (pos st)),
         State (pos st + k) (S (draws st)) (iters st))
  end.

(** The body of [if repeat:] (lines 67-69). *)
Definition repcheck (samples : list V) (repeat : Z) : ndbool :=
  foldl (λ acc i,
           mul acc (eq_arr (slice samples (i - 1) (- repeat + i - 2))
                           (slice samples i (- repeat + i - 1))))
        (Scalar true) (seqZ 1 repeat).

(** [n/np.size(pool)-balance] and [n/np.size(pool)+balance], for a pool
    of [size] elements (for [n] and [size] below [2^53], which a
    candidate of [n + 1] elements in memory implies, the quotient of the
    two floats is Python's quotient of the two integers). *)
Definition band_low (n : Z) (size : nat) (balance : Q) : spec_float :=
  fsub (fdiv (float_of_Z n) (float_of_Z (Z.of_nat size))) (float_of_Q balance).
Definition band_high (n : Z) (size : nat) (balance : Q) : spec_float :=
  fadd (fdiv (float_of_Z n) (float_of_Z (Z.of_nat size))) (float_of_Q balance).

(** The body of [if balance:] (lines 75-76); the counts are compared as
    floats. *)
Definition balcheck (samples : list V) (n : Z) (pool : list V)
    (balance : Q) : bool :=
  let '(_, counts) := unique Vle (init samples) in
  existsb (λ c, fltb (float_of_Z (Z.of_nat c))
                     (band_low n (length pool) balance)) counts
  || existsb (λ c, fltb (band_high n (length pool) balance)
                        (float_of_Z (Z.of_nat c))) counts.

(** The value of [check] for one candidate (lines 66-81). *)
Definition check (pool : list V) (n : Z) (repeat : option Z)
    (balance : option Q) (samples : list V) : bool :=
  let rep :=
    match repeat with
    | Some r => if truthyZ repeat then repcheck samples r else Scalar false
    | None => Scalar false
    end in
  let bal :=
    match balance with
    | Some b => if truthyQ balance then balcheck samples n pool b else false
    | None => false
    end in
  any rep || bal.

(** Lines 87-88. *)
Definition finish (samples : list V) : outcome :=
  let '(values, counts) := unique Vle (init samples) in
  Returned (init samples) values counts.

(** The [while check:] loop (lines 61-84); [stop] is the loop counter. *)
Fixpoint retry (stream : nat → nat) (pool : list V) (n : Z)
    (repeat : option Z) (balance : option Q) (maxit : Z)
    (fuel : nat) (stop : Z) (st : state) : option outcome * state :=
  match fuel with
  | O => (None, st)
  | S fuel' =>
      match choice stream pool (n + 1) (enter_loop st) with
      | (None, st') => (Some ValueError, st')
      | (Some samples, st') =>
          if check pool n repeat balance samples then
            if decide (stop = maxit) then (Some (StopIteration maxit), st')
            else retry stream pool n repeat balance maxit fuel' (stop + 1) st'
          else (Some (finish samples), st')
      end
  end.

Definition randrest (stream : nat → nat) (pool : list V) (n : Z)
    (repeat : option Z) (balance : option Q) (maxit : Z)
    (fuel : nat) : option outcome * state :=
  if negb (truthyZ repeat) && negb (truthyQ balance) then
    match choice stream pool (n + 1) st0 with
    | (None, st) => (Some ValueError, st)
    | (Some samples, st) => (Some (finish samples), st)
    end
  else retry stream pool n repeat balance maxit fuel 1 st0.

End generator.

Arguments Returned {V} samples values counts.
Arguments StopIteration {V} maxit.
Arguments ValueError {V}.

End RandRest.

(** ** The demonstration cells of the notebook *)

Module Demo.
Import Np RandRest.

(** What one pass of a cell prints: the heading [Durchgang: i+1], the line
    of the total and the three tallies, the sequence, and the rule. *)
Inductive item :=
  | Heading (number : Z)
  | Totals (size : nat) (tally : list (Z * nat))
  | Sequence (samples : list Z)
  | Rule.

(** How a cell ends: all passes done, or an exception ([IndexError] is
    what [values[k]] and [counts[k]] raise out of range), or no fuel left
    for a loop of [randrest]. *)
Inductive ending :=
  | Done
  | Stopped (maxit : Z)
  | DrawFailed
  | IndexError
  | OutOfFuel.

(** The second [print] of a pass: [np.size(samples)], then
    [values[0]], [counts[0]], ..., [values[2]], [counts[2]]. *)
Definition totals (samples values : list Z) (counts : list nat)
    : option item :=
  v0 ← values !! 0%nat; c0 ← counts !! 0%nat;
  v1 ← values !! 1%nat; c1 ← counts !! 1%nat;
  v2 ← values !! 2%nat; c2 ← counts !! 2%nat;
  Some (Totals (length samples) [(v0, c0); (v1, c1); (v2, c2)]).

(** [for i in range(...)]: the passes from [i] on, [passes] of them. Each
    pass calls [randrest([1,2,3], 40, repeat, 1)] with the default budget
    on what is left of the random stream. *)
Fixpoint cell (repeat : option Z) (fuel passes : nat) (i : nat)
    (stream : nat → nat) : list item * ending :=
  match passes with
  | O => ([], Done)
  | S passes' =>
      match randrest Z.le stream [1; 2; 3] 40 repeat (Some 1%Q) 100000 fuel with
      | (None, _) => ([], OutOfFuel)
      | (Some (StopIteration m), _) => ([], Stopped m)
      | (Some ValueError, _) => ([], DrawFailed)
      | (Some (Returned samples values counts), st) =>
          match totals samples values counts with
          | None => ([Heading (Z.of_nat i + 1)], IndexError)
          | Some line =>
              let '(out, e) :=
                cell repeat fuel passes' (S i) (λ p, stream (pos st + p)%nat) in
              ([Heading (Z.of_nat i + 1); line; Sequence samples; Rule] ++ out,
               e)
          end
      end
  end.

(** The two cells: [randrest([1,2,3], 40, False, 1)] and
    [randrest([1,2,3], 40, 2, 1)], ten passes each. *)
Definition cell_unrestricted_repeat (fuel : nat) (stream : nat → nat) :=
  cell None fuel 10 0 stream.
Definition cell_repeat_2 (fuel : nat) (stream : nat → nat) :=
  cell (Some 2) fuel 10 0 stream.

(** A line of totals as the cells are meant to print it: 40 elements, and
    the tallies of 1, 2 and 3, each 13 or 14. *)
Definition good_item (x : item) : Prop :=
  match x with
  | Totals size tally =>
      size = 40%nat
      ∧ ∃ c1 c2 c3, tally = [(1, c1); (2, c2); (3, c3)]
          ∧ (c1 + c2 + c3 = 40)%nat
          ∧ (13 ≤ c1 ≤ 14)%nat ∧ (13 ≤ c2 ≤ 14)%nat ∧ (13 ≤ c3 ≤ 14)%nat
  | Sequence samples => length samples = 40%nat
  | _ => True
  end.

(** A cell whose output is as meant: no [IndexError] from the tallies and
    no failed draw, every line printed is good, ten full passes when the
    cell ends without exception, and enough fuel for the budget of every
    call means the model does not run out of it. *)
Definition prints_well (fuel : nat) (r : list item * ending) : Prop :=
  r.2 ≠ IndexError ∧ r.2 ≠ DrawFailed
  ∧ Forall good_item r.1
  ∧ (r.2 = Done → length r.1 = 40%nat)
  ∧ (100000 ≤ Z.of_nat fuel → r.2 ≠ OutOfFuel).

End Demo.

(** ** Notions the properties are stated with *)

Module Spec.
Import Np RandRest.

Section runs.
Context {V : Type}.

(** [k] identical consecutive elements of [l], starting at index [j]. *)
Definition run_at (l : list V) (j k : nat) : Prop :=
  ∃ v, ∀ i, (i < k)%nat → l !! (j + i)%nat = Some v.

(** [l] has a run of [k] identical consecutive elements somewhere. *)
Definition has_run (k : nat) (l : list V) : Prop := ∃ j, run_at l j k.

(** The array the repeat check has built after [t] rounds on a candidate
    [l], with windows of [m] elements: entry [j] tells whether the [t + 1]
    elements from index [j] on are pairwise equal neighbours. *)
Definition windows `{EqDecision V} (l : list V) (m t : nat) : list bool :=
  (λ j, forallb (λ i, bool_decide (l !! (i + j)%nat = l !! (S i + j)%nat))
                (seq 0 t)) <$> seq 0 m.
End runs.

(** What a candidate of a call with [pool] and [n] looks like: [n + 1]
    elements of the pool. *)
Definition drawn {V} (pool : list V) (n : Z) (samples : list V) : Prop :=
  0 ≤ n + 1 ∧ length samples = Z.to_nat (n + 1)
  ∧ ∀ x, x ∈ samples → x ∈ pool.

(** A count [c] that the balance check lets pass: as floats, [c] is
    neither below [n/size - t] nor above [n/size + t]. *)
Definition passes_band (n : Z) (size : nat) (t : Q) (c : nat) : Prop :=
  fltb (float_of_Z (Z.of_nat c)) (band_low n size t) = false
  ∧ fltb (band_high n size t) (float_of_Z (Z.of_nat c)) = false.

(** The tolerance band of the balance restriction in exact arithmetic,
    for a count [c]. *)
Definition in_band (n : Z) (size : nat) (t : Q) (c : nat) : Prop :=
  (inject_Z n / inject_Z (Z.of_nat size) - t <= inject_Z (Z.of_nat c))%Q
  ∧ (inject_Z (Z.of_nat c) <= inject_Z n / inject_Z (Z.of_nat size) + t)%Q.

(** Restrictions no candidate of a call can meet: a repeat limit below
    [n] on a pool of one value, or a balance check that lets none of the
    counts 1, ..., [n] pass. *)
Definition infeasible {V} (pool : list V) (n : Z) (repeat : option Z)
    (balance : option Q) : Prop :=
  (∃ v r, pool = [v] ∧ repeat = Some r ∧ 0 < r < n)
  ∨ (∃ t, pool ≠ [] ∧ 0 < n ∧ balance = Some t ∧ ¬ (t == 0)%Q
          ∧ ∀ c, (0 < c)%nat → Z.of_nat c ≤ n →
                 ¬ passes_band n (length pool) t c).

(** The candidate of attempt [a] (counted from 0) of a call on [stream]
    with [pool] and [n]: the [n + 1] picks from position [a * (n + 1)]. *)
Definition attempt {V} (stream : nat → nat) (pool : list V) (n a : nat)
    : list V :=
  match pool with
  | [] => []
  | d :: _ => candidate stream pool d (S n) (a * S n)
  end.

(** What the check asks of the [n] elements [s] of a candidate: with an
    active [repeat = r], that [r] is positive and [s] has no run of
    [r + 1]; with an active [balance = t], that the count of every value
    that occurs in [s] passes the band of line 76. *)
Definition conforms {V} `{EqDecision V} (pool : list V) (n : Z)
    (repeat : option Z) (balance : option Q) (s : list V) : Prop :=
  (∀ r, repeat = Some r → r ≠ 0 → 0 < r ∧ ¬ has_run (S (Z.to_nat r)) s)
  ∧ (∀ t, balance = Some t → ¬ (t == 0)%Q →
       ∀ v, v ∈ s → passes_band n (length pool) t (count v s)).

(** Two random streams that pick the same element of a pool of [k] values
    for every element of every candidate of [n + 1] elements, except
    possibly for the last one of each candidate. *)
Definition same_but_dummy (k n : nat) (f g : nat → nat) : Prop :=
  ∀ a j, (j < n)%nat →
    (f (a * S n + j) mod k)%nat = (g (a * S n + j) mod k)%nat.

(** A random stream given by its first elements, 0 afterwards. *)
Definition stream_of (xs : list nat) : nat → nat := λ p, nth p xs 0%nat.

(** The stream 0, 1, 2, 3, ... *)
Definition counting : nat → nat := λ p, p.

(** The sequence 1, 2, 3, 1, 2, 3, ... of 40 elements. *)
Definition cycle40 : list Z := (λ j, 1 + Z.of_nat (j mod 3)) <$> seq 0 40.

(** The constant stream 0, and the stream that is 1 on every third
    position (the dummies of candidates of 3 elements) and 0 elsewhere. *)
Definition zeros : nat → nat := λ _, 0%nat.
Definition dummy_ones : nat → nat :=
  λ p, if decide (p mod 3 = 2)%nat then 1%nat else 0%nat.

End Spec.

Import Np RandRest Demo Spec.

(** ** The primitives on small inputs *)

Example slice_negative_stop : slice [10; 20; 30; 40; 50] 1 (-2) = [20; 30].
Proof. reflexivity. Qed.

Example slice_clamped : slice [10; 20; 30] 2 (-5) = [].
Proof. reflexivity. Qed.

Example init_drops_last : init [10; 20; 30] = [10; 20].
Proof. reflexivity. Qed.

Example unique_sorted_counts :
  unique Z.le [3; 1; 3; 2; 3] = ([1; 2; 3], [1; 1; 3]%nat).
Proof. reflexivity. Qed.

(** A candidate for [n = 4] has 5 elements; with [repeat = 2] the check
    has one entry per start index 0 and 1 of a window of 3. *)
Example repcheck_head : repcheck [1; 1; 1; 2; 9] 2 = Arr [true; false].
Proof. reflexivity. Qed.

Example repcheck_tail : repcheck [2; 1; 1; 1; 9] 2 = Arr [false; true].
Proof. reflexivity. Qed.

(** A run that needs the dummy element is not seen. *)
Example repcheck_dummy : repcheck [1; 2; 1; 1; 1] 2 = Arr [false; false].
Proof. reflexivity. Qed.

(** Without rounds the check stays the scalar [True]. *)
Example repcheck_no_round : repcheck [1; 2; 1; 1; 1] (-1) = Scalar true.
Proof. reflexivity. Qed.

Example balcheck_band :
  balcheck Z.le [1; 1; 2; 3; 9] 4 [1; 2; 3] 1 = false
  ∧ balcheck Z.le [1; 1; 1; 3; 9] 4 [1; 2; 3] 1 = true.
Proof. split; reflexivity. Qed.

(** The float 0.6 is a little below 6/10, so in exact arithmetic its sum
    with 2/5 is below 1; as floats the sum is 1.0, and the count 1 is not
    above it. The literal 6/10 reads as this float. *)
Example balcheck_rounds :
  float_of_Q (6 # 10) = float_of_Q (5404319552844595 # 9007199254740992)
  ∧ band_high 2 5 (5404319552844595 # 9007199254740992) = float_of_Z 1
  ∧ balcheck Z.le [1; 2; 1] 2 [1; 2; 3; 4; 5]
      (5404319552844595 # 9007199254740992) = false
  ∧ ¬ in_band 2 5 (5404319552844595 # 9007199254740992) 1.
Proof.
  split_and!; [by vm_compute..|].
  unfold in_band, Qle. simpl. lia.
Qed.

Example float_of_Z_rounds :
  float_of_Z (2 ^ 53 + 1) = float_of_Z (2 ^ 53)
  ∧ float_of_Q (3 # 2) = S754_finite false 6755399441055744 (-52).
Proof. split; by vm_compute. Qed.

Example choice_picks :
  choice counting [10; 20; 30] 5 st0
  = (Some [10; 20; 30; 10; 20], State 5 1 0).
Proof. reflexivity. Qed.

(** ** Slices *)

Section slices.
Context {A : Type}.
Implicit Types l : list A.

Lemma init_take l : init l = take (length l - 1) l.
Proof.
  unfold init, slice, norm_index.
  repeat case_decide; try lia.
  rewrite Z.min_l by lia. simpl. f_equal. lia.
Qed.

Lemma init_take_S l n : length l = S n → init l = take n l.
Proof. intros Hl. rewrite init_take, Hl. f_equal. lia. Qed.

Lemma length_init l : length (init l) = (length l - 1)%nat.
Proof. rewrite init_take, length_take. lia. Qed.

Lemma init_nil l : (length l ≤ 1)%nat → init l = [].
Proof.
  intros Hl. rewrite init_take.
  replace (length l - 1)%nat with 0%nat by lia. done.
Qed.

(** The two windows of the repeat check, for the [i]-th comparison
    ([i] counted from 0) on a candidate of [n + 1] elements: both are
    [n - r] elements long and start at [i] and [i + 1]. *)
Lemma slice_left l (n r i : nat) :
  length l = S n → (i < r)%nat →
  slice l (Z.of_nat (S i) - 1) (- Z.of_nat r + Z.of_nat (S i) - 2)
  = take (n - r) (drop i l).
Proof.
  intros Hl Hi. unfold slice, norm_index. rewrite Hl.
  repeat case_decide; try lia.
  destruct (decide (i ≤ S n)%nat) as [Hle|Hgt].
  - rewrite Z.min_l by lia.
    replace (Z.to_nat (Z.of_nat (S i) - 1)) with i by lia.
    f_equal. lia.
  - rewrite !drop_ge by lia. by rewrite !take_nil.
Qed.

Lemma slice_right l (n r i : nat) :
  length l = S n → (i < r)%nat →
  slice l (Z.of_nat (S i)) (- Z.of_nat r + Z.of_nat (S i) - 1)
  = take (n - r) (drop (S i) l).
Proof.
  intros Hl Hi. unfold slice, norm_index. rewrite Hl.
  repeat case_decide; try lia.
  destruct (decide (S i ≤ S n)%nat) as [Hle|Hgt].
  - rewrite Z.min_l by lia. rewrite Nat2Z.id.
    f_equal. lia.
  - rewrite !drop_ge by lia. by rewrite !take_nil.
Qed.
End slices.


(** ** The repeat check *)

Section repeat_check.
Context {V : Type} `{EqDecision V}.
Implicit Types samples l : list V.

Lemma forallb_agree {B} (f g : B → bool) (xs : list B) :
  (∀ x, In x xs → f x = g x) → forallb f xs = forallb g xs.
Proof.
  induction xs as [|x xs IH]; intros Hfg; [done|]. simpl.
  rewrite (Hfg x), IH; [done| |by left]. intros y Hy. apply Hfg. by right.
Qed.

Lemma zip_with_fmap_seq {B C D} (h : B → C → D) (f : nat → B) (g : nat → C)
    (js : list nat) :
  zip_with h (f <$> js) (g <$> js) = (λ j, h (f j) (g j)) <$> js.
Proof. induction js as [|j js IH]; [done|]. cbn. by f_equal. Qed.

Lemma take_drop_fmap_seq l (a m : nat) :
  (m = 0 ∨ a + m ≤ length l)%nat →
  Some <$> take m (drop a l) = (λ j, l !! (a + j)%nat) <$> seq 0 m.
Proof.
  intros Hm. apply list_eq. intros j.
  rewrite !list_lookup_fmap.
  destruct (decide (j < m)%nat) as [Hj|Hj].
  - rewrite lookup_take_lt, lookup_drop, lookup_seq_lt by done. simpl.
    destruct (lookup_lt_is_Some_2 l (a + j)) as [x Hx]; [lia|].
    by rewrite Hx.
  - rewrite lookup_take_ge, lookup_seq_ge by lia. done.
Qed.

(** One comparison of the repeat check, index by index. *)
Lemma eq_arr_windows l (a b m : nat) :
  (m = 0 ∨ a + m ≤ length l ∧ b + m ≤ length l)%nat →
  eq_arr (take m (drop a l)) (take m (drop b l))
  = (λ j, bool_decide (l !! (a + j)%nat = l !! (b + j)%nat)) <$> seq 0 m.
Proof.
  intros Hm.
  assert (∀ xs ys : list V,
    eq_arr xs ys
    = zip_with (λ x y, bool_decide (x = y)) (Some <$> xs) (Some <$> ys)) as Hopt.
  { intros xs. induction xs as [|x xs IH]; intros [|y ys]; simpl; [done..|].
    unfold eq_arr in *. simpl. rewrite IH. f_equal.
    apply bool_decide_ext. naive_solver. }
  rewrite Hopt, !take_drop_fmap_seq by lia.
  apply (zip_with_fmap_seq (λ x y : option V, bool_decide (x = y))
           (λ j, l !! (a + j)%nat) (λ j, l !! (b + j)%nat)).
Qed.

Lemma windows_S l (m t : nat) :
  zip_with andb (windows l m t)
    ((λ j, bool_decide (l !! (t + j)%nat = l !! (S t + j)%nat)) <$> seq 0 m)
  = windows l m (S t).
Proof.
  unfold windows.
  rewrite (zip_with_fmap_seq andb).
  apply list_fmap_ext. intros _ j _.
  rewrite seq_S, forallb_app. simpl. by rewrite andb_true_r.
Qed.

Lemma windows_1 l (m : nat) :
  andb true <$>
    ((λ j, bool_decide (l !! (0 + j)%nat = l !! (1 + j)%nat)) <$> seq 0 m)
  = windows l m 1.
Proof.
  unfold windows. rewrite <-list_fmap_compose.
  apply list_fmap_ext. intros _ j _. simpl. by rewrite andb_true_r.
Qed.

(** The repeat check on a candidate of [n + 1] elements, after [t] of its
    [r] rounds. *)
Lemma repcheck_rounds samples (n r t : nat) :
  length samples = S n → (t ≤ r)%nat →
  foldl (λ acc i,
           mul acc (eq_arr (slice samples (i - 1) (- Z.of_nat r + i - 2))
                           (slice samples i (- Z.of_nat r + i - 1))))
        (Scalar true) (seqZ 1 (Z.of_nat t))
  = match t with
    | O => Scalar true
    | S _ => Arr (windows samples (n - r) t)
    end.
Proof.
  intros Hl. induction t as [|t IH]; intros Ht; [done|].
  rewrite seqZ_S, foldl_app, IH by lia. cbn [foldl].
  replace (1 + Z.of_nat t) with (Z.of_nat (S t)) by lia.
  rewrite (slice_left _ n), (slice_right _ n) by (done || lia).
  rewrite eq_arr_windows by (rewrite Hl; lia).
  destruct t as [|t]; cbn [mul].
  - by rewrite windows_1.
  - by rewrite windows_S.
Qed.

Lemma repcheck_windows samples (n : nat) (r : Z) :
  length samples = S n → 0 < r →
  repcheck samples r = Arr (windows samples (n - Z.to_nat r) (Z.to_nat r)).
Proof.
  intros Hl Hr. unfold repcheck.
  pose proof (repcheck_rounds samples n (Z.to_nat r) (Z.to_nat r) Hl) as H.
  rewrite Z2Nat.id in H by lia. rewrite H by done.
  destruct (Z.to_nat r) eqn:E; [lia|done].
Qed.

(** The windows never reach the last element of the candidate. *)
Lemma windows_take l (n r : nat) :
  windows l (n - r) r = windows (take n l) (n - r) r.
Proof.
  unfold windows. apply list_fmap_ext. intros k j Hj.
  apply lookup_seq in Hj as [-> Hj].
  apply forallb_agree. intros i Hi%in_seq. simpl in Hj.
  by rewrite !lookup_take_lt by lia.
Qed.

Lemma windows_any l (m t : nat) :
  existsb id (windows l m t) = true
  ↔ ∃ j, (j < m)%nat ∧ ∀ i, (i < t)%nat → l !! (i + j)%nat = l !! (S i + j)%nat.
Proof.
  unfold windows. rewrite existsb_exists. split.
  - intros (b & Hb & Hid). apply in_map_iff in Hb as (j & <- & Hj%in_seq).
    exists j. split; [lia|]. intros i Hi.
    unfold id in Hid. rewrite forallb_forall in Hid.
    specialize (Hid i). rewrite in_seq in Hid.
    eapply bool_decide_eq_true_1. apply Hid. lia.
  - intros (j & Hj & Hrun). exists true. split; [|done].
    apply in_map_iff. exists j. split; [|apply in_seq; lia].
    apply forallb_forall. intros i Hi%in_seq.
    apply bool_decide_eq_true_2. apply Hrun. lia.
Qed.

(** Neighbours equal all along a window is the same as a run. *)
Lemma neighbours_run l (n r : nat) :
  (n ≤ length l)%nat →
  (∃ j, (j < n - r)%nat
        ∧ ∀ i, (i < r)%nat → l !! (i + j)%nat = l !! (S i + j)%nat)
  ↔ has_run (S r) (take n l).
Proof.
  intros Hn. split.
  - intros (j & Hj & Heq).
    destruct (lookup_lt_is_Some_2 l j) as [v Hv]; [lia|].
    exists j, v. intros i Hi. rewrite lookup_take_lt by lia.
    induction i as [|i IH].
    + by rewrite Nat.add_0_r.
    + replace (j + S i)%nat with (S i + j)%nat by lia.
      rewrite <-Heq by lia.
      replace (i + j)%nat with (j + i)%nat by lia. apply IH. lia.
  - intros (j & v & Hrun). exists j.
    assert (j + r < n)%nat as Hlt.
    { specialize (Hrun r (Nat.lt_succ_diag_r r)).
      apply lookup_lt_Some in Hrun. rewrite length_take in Hrun. lia. }
    split; [lia|]. intros i Hi.
    pose proof (Hrun i) as H1. pose proof (Hrun (S i)) as H2.
    rewrite lookup_take_lt in H1, H2 by lia.
    replace (i + j)%nat with (j + i)%nat by lia.
    replace (S i + j)%nat with (j + S i)%nat by lia.
    rewrite H1, H2 by lia. done.
Qed.

(** What the repeat check decides: it reports a violation exactly when
    the candidate without its last element has a run of [r + 1]. *)
Lemma repcheck_any samples (n : nat) (r : Z) :
  length samples = S n → 0 < r →
  any (repcheck samples r) = true
  ↔ has_run (S (Z.to_nat r)) (init samples).
Proof.
  intros Hl Hr.
  rewrite (repcheck_windows samples n), (init_take_S samples n) by done.
  simpl. rewrite windows_any. apply neighbours_run. lia.
Qed.

Lemma repcheck_init samples (n : nat) (r : Z) :
  length samples = S n → 0 < r →
  repcheck samples r
  = Arr (windows (init samples) (n - Z.to_nat r) (Z.to_nat r)).
Proof.
  intros Hl Hr.
  by rewrite (repcheck_windows samples n), (init_take_S samples n), windows_take.
Qed.

(** Without rounds (a negative [repeat]) the check stays the scalar
    [True]. *)
Lemma repcheck_negative samples (r : Z) :
  r ≤ 0 → repcheck samples r = Scalar true.
Proof. intros Hr. unfold repcheck. by rewrite seqZ_nil. Qed.
End repeat_check.


(** ** The balance check *)

Lemma existsb_false {B} (f : B → bool) (xs : list B) :
  existsb f xs = false ↔ ∀ x, x ∈ xs → f x = false.
Proof.
  induction xs as [|x xs IH]; simpl.
  - split; [|done]. intros _ x Hx. by apply elem_of_nil in Hx.
  - rewrite orb_false_iff, IH. setoid_rewrite elem_of_cons. naive_solver.
Qed.

Section balance_check.
Context {V : Type} `{EqDecision V} (Vle : relation V) `{!RelDecision Vle}.
Implicit Types samples l pool : list V.

Lemma unique_values l v : v ∈ (unique Vle l).1 ↔ v ∈ l.
Proof. simpl. by rewrite merge_sort_Permutation, elem_of_remove_dups. Qed.

Lemma unique_counts l c :
  c ∈ (unique Vle l).2 ↔ ∃ v, v ∈ l ∧ c = count v l.
Proof.
  simpl. rewrite list_elem_of_fmap.
  setoid_rewrite merge_sort_Permutation.
  setoid_rewrite elem_of_remove_dups. naive_solver.
Qed.

Lemma unique_nil : unique Vle [] = ([], []).
Proof. done. Qed.

(** What the balance check decides: the candidate passes exactly when
    every value that occurs in it (without its last element) has its
    count in the band. *)
Lemma balcheck_false samples n pool b :
  balcheck Vle samples n pool b = false
  ↔ ∀ v, v ∈ init samples →
         passes_band n (length pool) b (count v (init samples)).
Proof.
  unfold balcheck.
  destruct (unique Vle (init samples)) as [vs cs] eqn:E.
  assert (∀ c, c ∈ cs ↔ ∃ v, v ∈ init samples ∧ c = count v (init samples))
    as Hcs.
  { intros c. rewrite <-unique_counts. by rewrite E. }
  rewrite orb_false_iff, !existsb_false. unfold passes_band.
  setoid_rewrite Hcs. naive_solver.
Qed.

Lemma count_elem_of l v : v ∈ l → (0 < count v l)%nat.
Proof.
  intros Hv. unfold count.
  assert (v ∈ filter (λ x, x = v) l) as Hf by by apply list_elem_of_filter.
  destruct (filter _ l); [by apply elem_of_nil in Hf|simpl; lia].
Qed.

Lemma count_le_length l v : (count v l ≤ length l)%nat.
Proof. apply length_filter. Qed.

Lemma count_not_elem_of l v : v ∉ l → count v l = 0%nat.
Proof.
  intros Hv. unfold count.
  destruct (filter (λ x, x = v) l) as [|x xs] eqn:E; [done|].
  assert (x ∈ filter (λ x, x = v) l) as Hx by (rewrite E; left).
  apply list_elem_of_filter in Hx as [-> ?]. done.
Qed.
End balance_check.


(** ** Drawing a candidate *)

Section drawing.
Context {V : Type} `{EqDecision V}.
Implicit Types samples pool : list V.

Lemma length_candidate stream pool d k p :
  length (candidate stream pool d k p) = k.
Proof. unfold candidate. by rewrite length_fmap, length_seq. Qed.

Lemma candidate_pool stream pool d k p x :
  pool ≠ [] → x ∈ candidate stream pool d k p → x ∈ pool.
Proof.
  intros Hpool (j & -> & _)%list_elem_of_fmap.
  apply list_elem_of_In, nth_In, Nat.mod_upper_bound.
  by destruct pool.
Qed.

Lemma choice_Some stream pool size st samples st' :
  choice stream pool size st = (Some samples, st') →
  pool ≠ [] ∧ 0 ≤ size ∧ length samples = Z.to_nat size
  ∧ (∀ x, x ∈ samples → x ∈ pool)
  ∧ st' = State (pos st + Z.to_nat size) (S (draws st)) (iters st).
Proof.
  unfold choice. destruct pool as [|d pool]; [done|].
  case_decide; [done|]. intros [= <- <-].
  split_and!; [done|lia|apply length_candidate| |done].
  intros x. by apply candidate_pool.
Qed.

Lemma choice_None stream pool size st st' :
  choice stream pool size st = (None, st') →
  (pool = [] ∨ size < 0) ∧ st' = st.
Proof.
  unfold choice. destruct pool as [|d pool]; [naive_solver|].
  case_decide; naive_solver.
Qed.

Lemma choice_valid stream pool size st :
  pool ≠ [] → 0 ≤ size →
  ∃ samples,
    choice stream pool size st
    = (Some samples,
       State (pos st + Z.to_nat size) (S (draws st)) (iters st)).
Proof.
  intros Hpool Hsize. unfold choice. destruct pool as [|d pool]; [done|].
  case_decide; [lia|]. eauto.
Qed.

Lemma choice_invalid stream pool size st :
  pool = [] ∨ size < 0 → choice stream pool size st = (None, st).
Proof.
  intros Hbad. unfold choice. destruct pool as [|d pool]; [done|].
  case_decide; [done|]. naive_solver lia.
Qed.

(** The elements before the dummy come from the stream positions before
    the dummy's. *)
Lemma init_candidate stream pool d (n p : nat) :
  init (candidate stream pool d (S n) p) = candidate stream pool d n p.
Proof.
  rewrite (init_take_S _ n) by apply length_candidate.
  unfold candidate. rewrite seq_S, fmap_app, take_app_length'; [done|].
  by rewrite length_fmap, length_seq.
Qed.
End drawing.


(** ** The check of one candidate *)

Section checking.
Context {V : Type} `{EqDecision V} (Vle : relation V) `{!RelDecision Vle}.
Implicit Types samples pool : list V.

(** With both restrictions off no candidate is rejected. *)
Lemma check_off pool n repeat balance samples :
  truthyZ repeat = false → truthyQ balance = false →
  check Vle pool n repeat balance samples = false.
Proof.
  intros Hr Hb. unfold check.
  destruct repeat, balance; by rewrite ?Hr, ?Hb.
Qed.

(** A candidate that passes the check breaks neither restriction. *)
Lemma check_false_repeat pool (n : nat) r balance samples :
  length samples = S n → 0 < r →
  check Vle pool (Z.of_nat n) (Some r) balance samples = false →
  ¬ has_run (S (Z.to_nat r)) (init samples).
Proof.
  intros Hl Hr. unfold check. simpl.
  rewrite bool_decide_eq_true_2 by lia.
  intros [Hany _]%orb_false_iff Hrun.
  apply (repcheck_any samples n r Hl Hr) in Hrun. congruence.
Qed.

Lemma check_false_balance pool n repeat b samples :
  truthyQ (Some b) = true →
  check Vle pool n repeat (Some b) samples = false →
  ∀ v, v ∈ init samples →
       passes_band n (length pool) b (count v (init samples)).
Proof.
  intros Hb. unfold check. rewrite Hb.
  intros [_ Hbal]%orb_false_iff.
  by apply (balcheck_false Vle samples n pool b).
Qed.

(** A run of [r + 1] makes the check fail. *)
Lemma check_true_repeat pool (n : nat) r balance samples :
  length samples = S n → 0 < r →
  has_run (S (Z.to_nat r)) (init samples) →
  check Vle pool (Z.of_nat n) (Some r) balance samples = true.
Proof.
  intros Hl Hr Hrun. unfold check. simpl.
  rewrite bool_decide_eq_true_2 by lia.
  apply (repcheck_any samples n r Hl Hr) in Hrun. by rewrite Hrun.
Qed.

(** A value whose count is outside the band makes the check fail. *)
Lemma check_true_balance pool n repeat b samples v :
  truthyQ (Some b) = true →
  v ∈ init samples →
  ¬ passes_band n (length pool) b (count v (init samples)) →
  check Vle pool n repeat (Some b) samples = true.
Proof.
  intros Hb Hv Hband. unfold check. rewrite Hb.
  destruct (balcheck Vle samples n pool b) eqn:E.
  - apply orb_true_r.
  - destruct Hband. by apply (balcheck_false Vle samples n pool b).
Qed.

(** The check never looks at the last element of the candidate. *)
Lemma check_init pool (n : nat) repeat balance samples1 samples2 :
  length samples1 = S n → length samples2 = S n →
  init samples1 = init samples2 →
  check Vle pool (Z.of_nat n) repeat balance samples1
  = check Vle pool (Z.of_nat n) repeat balance samples2.
Proof.
  intros Hl1 Hl2 Hinit. unfold check. f_equal.
  - destruct repeat as [r|]; [|done].
    destruct (truthyZ (Some r)); [|done].
    destruct (decide (0 < r)) as [Hr|Hr].
    + by rewrite (repcheck_init samples1 n), (repcheck_init samples2 n), Hinit.
    + by rewrite !repcheck_negative by lia.
  - destruct balance as [b|]; [|done].
    destruct (truthyQ (Some b)); [|done].
    unfold balcheck. by rewrite Hinit.
Qed.

Lemma finish_init samples1 samples2 :
  init samples1 = init samples2 → finish Vle samples1 = finish Vle samples2.
Proof. intros Hinit. unfold finish. by rewrite Hinit. Qed.
End checking.


(** ** The retry loop *)

Section loop.
Context {V : Type} `{EqDecision V} (Vle : relation V) `{!RelDecision Vle}.
Variables (stream : nat → nat) (pool : list V) (n : Z).
Variables (repeat : option Z) (balance : option Q) (maxit : Z).

Local Abbreviation retry' := (retry Vle stream pool n repeat balance maxit).
Local Abbreviation check' := (check Vle pool n repeat balance).
Local Abbreviation drawn := (drawn pool n).

(** A returned sequence is a drawn candidate that passed the check,
    without its last element. *)
Lemma retry_returned fuel stop st s vs cs st' :
  retry' fuel stop st = (Some (Returned s vs cs), st') →
  ∃ samples,
    drawn samples ∧ check' samples = false
    ∧ s = init samples ∧ (vs, cs) = unique Vle (init samples).
Proof.
  revert stop st. induction fuel as [|fuel IH]; intros stop st; [done|].
  simpl.
  destruct (choice stream pool (n + 1) (enter_loop st))
    as [[samples|] st1] eqn:Hc; [|done].
  apply choice_Some in Hc as (_ & Hn & Hl & Hpool & _).
  destruct (check' samples) eqn:Hcheck.
  - case_decide; [done|]. apply IH.
  - unfold finish.
    destruct (unique Vle (init samples)) as [vs' cs'] eqn:Hu.
    intros [= <- <- <- _]. exists samples. by rewrite Hu.
Qed.

(** The loop never stops on its budget once the counter is past it. *)
Lemma retry_past_budget fuel stop st m :
  maxit < stop → (retry' fuel stop st).1 ≠ Some (StopIteration m).
Proof.
  revert stop st. induction fuel as [|fuel IH]; intros stop st Hstop; [done|].
  simpl.
  destruct (choice stream pool (n + 1) (enter_loop st))
    as [[samples|] st1]; [|done].
  destruct (check' samples).
  - case_decide; [lia|]. apply IH. lia.
  - unfold finish. by destruct (unique Vle (init samples)).
Qed.

(** With the counter within the budget, the loop ends within the draws
    that are left: with a return, or with the budget exhausted by
    exactly that many draws. *)
Lemma retry_within_budget fuel stop st :
  pool ≠ [] → 0 ≤ n →
  1 ≤ stop ≤ maxit → (Z.to_nat (maxit - stop + 1) ≤ fuel)%nat →
  ∃ o st',
    retry' fuel stop st = (Some o, st')
    ∧ (draws st < draws st')%nat
    ∧ Z.of_nat (draws st') ≤ Z.of_nat (draws st) + (maxit - stop + 1)
    ∧ (iters st' - iters st = draws st' - draws st)%nat
    ∧ ((∃ s vs cs, o = Returned s vs cs)
       ∨ (o = StopIteration maxit
          ∧ Z.of_nat (draws st') = Z.of_nat (draws st) + (maxit - stop + 1))).
Proof.
  intros Hpool Hn. revert stop st.
  induction fuel as [|fuel IH]; intros stop st Hstop Hfuel; [lia|].
  simpl.
  destruct (choice_valid stream pool (n + 1) (enter_loop st))
    as [samples ->]; [done|lia|].
  destruct (check' samples).
  - case_decide as Hm.
    + eexists _, _. split; [done|]. simpl. split_and!; [lia..|].
      right. split; [done|lia].
    + destruct (IH (stop + 1)
        (State (pos (enter_loop st) + Z.to_nat (n + 1))
               (S (draws (enter_loop st))) (iters (enter_loop st))))
        as (o & st' & -> & Hd1 & Hd2 & Hi & Ho); [lia..|].
      simpl in *. exists o, st'. split; [done|].
      split_and!; [lia..|].
      destruct Ho as [?|[-> ?]]; [by left|right; split; [done|lia]].
  - eexists _, _. split; [done|]. simpl. split_and!; [lia..|].
    left. unfold finish. destruct (unique Vle (init samples)). eauto.
Qed.

(** When no candidate can pass, the budget is used up. *)
Lemma retry_rejecting fuel stop st :
  (∀ samples, drawn samples → check' samples = true) →
  pool ≠ [] → 0 ≤ n →
  1 ≤ stop ≤ maxit → (Z.to_nat (maxit - stop + 1) ≤ fuel)%nat →
  ∃ st',
    retry' fuel stop st = (Some (StopIteration maxit), st')
    ∧ Z.of_nat (draws st') = Z.of_nat (draws st) + (maxit - stop + 1).
Proof.
  intros Hrej Hpool Hn Hstop Hfuel.
  destruct (retry_within_budget fuel stop st)
    as (o & st' & Hr & _ & _ & _ & [(s & vs & cs & ->)|[-> Hd]]); [done..| |].
  - apply retry_returned in Hr as (samples & Hdrawn & Hcheck & _).
    rewrite Hrej in Hcheck; done.
  - eauto.
Qed.
End loop.


(** ** Properties of a call *)

Section call.
Context {V : Type} `{EqDecision V} (Vle : relation V) `{!RelDecision Vle}.
Implicit Types (stream : nat → nat) (pool samples s vs : list V).
Implicit Types (repeat : option Z) (balance : option Q) (st : state).

(** Whatever a call returns is a drawn candidate that passed the check,
    without its last element, together with its histogram. *)
Lemma randrest_returned stream pool n repeat balance maxit fuel s vs cs st :
  randrest Vle stream pool n repeat balance maxit fuel
  = (Some (Returned s vs cs), st) →
  ∃ samples,
    drawn pool n samples ∧ check Vle pool n repeat balance samples = false
    ∧ s = init samples ∧ (vs, cs) = unique Vle (init samples).
Proof.
  unfold randrest.
  destruct (negb (truthyZ repeat) && negb (truthyQ balance)) eqn:Hoff.
  - apply andb_true_iff in Hoff as [Hr%negb_true_iff Hb%negb_true_iff].
    destruct (choice stream pool (n + 1) st0) as [[samples|] st1] eqn:Hc;
      [|done].
    apply choice_Some in Hc as (_ & Hn & Hl & Hpool & _).
    unfold finish.
    destruct (unique Vle (init samples)) as [vs' cs'] eqn:Hu.
    intros [= <- <- <- _]. exists samples.
    rewrite Hu. split_and!; [done..|by apply check_off|done|done].
  - apply retry_returned.
Qed.

Lemma has_run_nil (k : nat) : ¬ has_run (S k) (@nil V).
Proof. intros (j & v & Hrun). by specialize (Hrun 0%nat (Nat.lt_0_succ k)). Qed.

Lemma has_run_shorter (k k' : nat) (l : list V) :
  (k' ≤ k)%nat → has_run k l → has_run k' l.
Proof.
  intros Hk (j & v & Hrun). exists j, v. intros i Hi. apply Hrun. lia.
Qed.

(** ** Length (C6) *)

(** C6. For every call with [n ≥ 0] (whatever the pool, the restrictions
    and the budget), a returned sequence has exactly [n] elements. *)
Theorem returned_length stream pool n repeat balance maxit fuel s vs cs st :
  0 ≤ n →
  randrest Vle stream pool n repeat balance maxit fuel
  = (Some (Returned s vs cs), st) →
  Z.of_nat (length s) = n.
Proof.
  intros Hn (samples & (_ & Hl & _) & _ & -> & _)%randrest_returned.
  rewrite length_init, Hl. lia.
Qed.

(** Every element of a returned sequence is an element of the pool. *)
Lemma returned_pool stream pool n repeat balance maxit fuel s vs cs st x :
  randrest Vle stream pool n repeat balance maxit fuel
  = (Some (Returned s vs cs), st) →
  x ∈ s → x ∈ pool.
Proof.
  intros (samples & (_ & _ & Hpool) & _ & -> & _)%randrest_returned Hx.
  apply Hpool. rewrite init_take in Hx. by apply subseteq_take in Hx.
Qed.

(** ** The repeat restriction (C3) *)

(** C3. With [repeat = r], [r] a positive integer, a returned sequence
    has no run of [r + 1] or more identical consecutive elements,
    wherever the run would start. *)
Theorem returned_no_run stream pool n (r : Z) balance maxit fuel s vs cs st :
  0 < r →
  randrest Vle stream pool n (Some r) balance maxit fuel
  = (Some (Returned s vs cs), st) →
  ∀ k, (Z.to_nat r < k)%nat → ¬ has_run k s.
Proof.
  intros Hr (samples & (Hn & Hl & _) & Hcheck & -> & _)%randrest_returned.
  intros k Hk Hrun.
  apply (has_run_shorter _ (S (Z.to_nat r))) in Hrun; [|lia].
  destruct (decide (0 ≤ n)) as [Hn0|Hn0].
  - revert Hrun. apply (check_false_repeat Vle pool (Z.to_nat n) r balance).
    + rewrite Hl. lia.
    + done.
    + by rewrite Z2Nat.id.
  - rewrite init_nil in Hrun by lia. by apply has_run_nil in Hrun.
Qed.

(** The counts of the values that occur in a returned sequence pass the
    band of the balance check. *)
Lemma returned_balance_present stream pool n repeat b maxit fuel s vs cs st v :
  truthyQ (Some b) = true →
  randrest Vle stream pool n repeat (Some b) maxit fuel
  = (Some (Returned s vs cs), st) →
  v ∈ s → passes_band n (length pool) b (count v s).
Proof.
  intros Hb (samples & _ & Hcheck & -> & _)%randrest_returned Hv.
  by apply (check_false_balance Vle pool n repeat b).
Qed.
End call.


(** ** Fast path and the dummy element (C7, C10) *)

Section budget.
Context {V : Type} `{EqDecision V} (Vle : relation V) `{!RelDecision Vle}.
Implicit Types (stream : nat → nat) (pool samples s vs : list V).
Implicit Types (repeat : option Z) (balance : option Q) (st : state).

(** C7. With neither restriction set, a call with a non-empty pool and
    [n ≥ 0] returns the first candidate it draws: one draw, no execution
    of the loop body, and the same result whatever the budget (and
    whatever the fuel of the loop, which is not run). *)
Theorem unrestricted_first_draw stream pool n :
  pool ≠ [] → 0 ≤ n →
  ∃ s vs cs st,
    (∀ maxit fuel,
       randrest Vle stream pool n None None maxit fuel
       = (Some (Returned s vs cs), st))
    ∧ draws st = 1%nat ∧ iters st = 0%nat
    ∧ Z.of_nat (length s) = n ∧ ∀ x, x ∈ s → x ∈ pool.
Proof.
  intros Hpool Hn. unfold randrest. simpl.
  destruct (choice_valid stream pool (n + 1) st0) as [samples Hc];
    [done|lia|].
  rewrite Hc. unfold finish.
  destruct (unique Vle (init samples)) as [vs cs].
  apply choice_Some in Hc as (_ & _ & Hl & Hin & _).
  eexists _, _, _, _. split; [done|]. simpl. split_and!; [done..| |].
  - rewrite length_init, Hl. lia.
  - intros x Hx. apply Hin. rewrite init_take in Hx.
    by apply subseteq_take in Hx.
Qed.

(** Two streams that differ only on dummies give candidates that differ
    only in their last element. *)
Lemma candidate_same_dummy (n a : nat) f g pool d :
  same_but_dummy (length pool) n f g →
  init (candidate f pool d (S n) (a * S n))
  = init (candidate g pool d (S n) (a * S n)).
Proof.
  intros Hfg. rewrite !init_candidate. unfold candidate.
  apply list_fmap_ext. intros k j Hj. apply lookup_seq in Hj as [-> Hj].
  simpl. by rewrite Hfg.
Qed.

Lemma choice_same_dummy (n a : nat) f g pool st samples st' :
  same_but_dummy (length pool) n f g → pos st = (a * S n)%nat →
  choice f pool (Z.of_nat n + 1) st = (Some samples, st') →
  ∃ samples',
    choice g pool (Z.of_nat n + 1) st = (Some samples', st')
    ∧ length samples = S n ∧ length samples' = S n
    ∧ init samples = init samples' ∧ pos st' = (S a * S n)%nat.
Proof.
  intros Hfg Hpos. unfold choice. destruct pool as [|d pool]; [done|].
  case_decide; [done|].
  replace (Z.to_nat (Z.of_nat n + 1)) with (S n) by lia.
  intros [= <- <-]. eexists. split; [done|].
  rewrite !length_candidate, Hpos. split_and!; [done..| |simpl; lia].
  by apply candidate_same_dummy.
Qed.

Lemma retry_same_dummy (n a : nat) f g pool repeat balance maxit fuel stop st :
  same_but_dummy (length pool) n f g → pos st = (a * S n)%nat →
  retry Vle f pool (Z.of_nat n) repeat balance maxit fuel stop st
  = retry Vle g pool (Z.of_nat n) repeat balance maxit fuel stop st.
Proof.
  intros Hfg. revert a stop st.
  induction fuel as [|fuel IH]; intros a stop st Hpos; [done|]. simpl.
  destruct (choice f pool (Z.of_nat n + 1) (enter_loop st))
    as [[samples|] st1] eqn:Hc.
  - eapply choice_same_dummy in Hc
      as (samples' & -> & Hl & Hl' & Hinit & Hpos'); [|done..].
    rewrite (check_init Vle pool n repeat balance samples samples') by done.
    rewrite (finish_init Vle samples samples') by done.
    destruct (check Vle pool (Z.of_nat n) repeat balance samples'); [|done].
    case_decide; [done|]. by apply (IH (S a)).
  - apply choice_None in Hc as [Hbad ->].
    by rewrite choice_invalid.
Qed.

(** C10. Two calls whose draws differ only in the last (dummy) element of
    each candidate take the same decision on every candidate and end in
    the same way: same returned sequence and histogram (or same error),
    same number of draws. *)
Theorem dummy_irrelevant f g pool n repeat balance maxit fuel :
  0 ≤ n → same_but_dummy (length pool) (Z.to_nat n) f g →
  (∀ a d,
     check Vle pool n repeat balance
       (candidate f pool d (S (Z.to_nat n)) (a * S (Z.to_nat n)))
     = check Vle pool n repeat balance
         (candidate g pool d (S (Z.to_nat n)) (a * S (Z.to_nat n))))
  ∧ randrest Vle f pool n repeat balance maxit fuel
    = randrest Vle g pool n repeat balance maxit fuel.
Proof.
  intros Hn. destruct (Z_of_nat_complete n Hn) as [n' ->].
  rewrite Nat2Z.id. intros Hfg. split.
  - intros a d. apply check_init; [apply length_candidate..|].
    by apply candidate_same_dummy.
  - unfold randrest.
    destruct (negb (truthyZ repeat) && negb (truthyQ balance)).
    + destruct (choice f pool (Z.of_nat n' + 1) st0)
        as [[samples|] st1] eqn:Hc.
      * eapply (choice_same_dummy _ 0) in Hc
          as (samples' & -> & _ & _ & Hinit & _); [|done..].
        by rewrite (finish_init Vle samples samples').
      * apply choice_None in Hc as [Hbad ->]. by rewrite choice_invalid.
    + by apply (retry_same_dummy _ 0).
Qed.
End budget.


(** ** Edge cases of the configuration (C9, C4, C2) *)

Section edge_cases.
Context {V : Type} `{EqDecision V} (Vle : relation V) `{!RelDecision Vle}.
Implicit Types (stream : nat → nat) (pool samples s vs : list V).
Implicit Types (repeat : option Z) (balance : option Q) (st : state).

(** A candidate for [n = 0] is the dummy alone; it passes every check. *)
Lemma check_dummy_only pool repeat balance samples :
  length samples = 1%nat → (∀ r, repeat = Some r → 0 ≤ r) →
  check Vle pool 0 repeat balance samples = false.
Proof.
  intros Hl Hrep. unfold check.
  assert (init samples = []) as Hinit by (apply init_nil; lia).
  apply orb_false_iff. split.
  - destruct repeat as [r|]; [|done]. simpl. case_bool_decide; [|done].
    specialize (Hrep r eq_refl).
    by rewrite (repcheck_windows samples 0) by (done || lia).
  - destruct balance as [b|]; [|done].
    destruct (truthyQ (Some b)); [|done].
    unfold balcheck. by rewrite Hinit.
Qed.

(** C9 (amended). For [n = 0], a non-empty pool, [repeat] unset or not
    negative, any [balance] and any budget, the call returns an empty
    sequence and an empty histogram after one draw. The loop is skipped
    only when no restriction is active; otherwise its body runs once. *)
Theorem empty_request stream pool repeat balance maxit fuel :
  pool ≠ [] → (∀ r, repeat = Some r → 0 ≤ r) → (0 < fuel)%nat →
  randrest Vle stream pool 0 repeat balance maxit fuel
  = (Some (Returned [] [] []),
     State 1 1 (if truthyZ repeat || truthyQ balance then 1 else 0)).
Proof.
  intros Hpool Hrep Hfuel. unfold randrest.
  destruct (choice_valid stream pool (0 + 1) st0) as [samples Hc];
    [done|lia|].
  destruct (choice_valid stream pool (0 + 1) (enter_loop st0))
    as [samples' Hc']; [done|lia|].
  rewrite <-negb_orb.
  destruct (truthyZ repeat || truthyQ balance); simpl negb; cbv iota.
  - destruct fuel as [|fuel]; [lia|]. simpl. simpl in Hc'. rewrite Hc'.
    apply choice_Some in Hc' as (_ & _ & Hl & _).
    rewrite check_dummy_only by done.
    unfold finish. by rewrite init_nil by lia.
  - simpl in Hc. simpl. rewrite Hc.
    apply choice_Some in Hc as (_ & _ & Hl & _).
    unfold finish. by rewrite init_nil by lia.
Qed.

(** C4 (amended). Nothing is validated before the first draw. An empty
    pool (with [n ≥ 0]), or [n < -1], makes that first draw fail with the
    error of the drawing routine: no candidate is drawn, whatever the
    budget, and the call ends there. A budget [maxit ≤ 0] is accepted, and
    then the call never ends with [StopIteration]. *)
Theorem no_validation stream pool n repeat balance maxit fuel :
  (pool = [] ∧ 0 ≤ n ∨ n < -1 → (0 < fuel)%nat →
   ∃ st, randrest Vle stream pool n repeat balance maxit fuel
         = (Some ValueError, st) ∧ draws st = 0%nat)
  ∧ (maxit ≤ 0 →
     ∀ m, (randrest Vle stream pool n repeat balance maxit fuel).1
          ≠ Some (StopIteration m)).
Proof.
  split.
  - intros Hbad Hfuel. unfold randrest.
    destruct (negb (truthyZ repeat) && negb (truthyQ balance)).
    + rewrite choice_invalid by (destruct Hbad as [[? _]|?]; [by left|right; lia]).
      eauto.
    + destruct fuel as [|fuel]; [lia|]. simpl.
      rewrite choice_invalid by (destruct Hbad as [[? _]|?]; [by left|right; lia]).
      eauto.
  - intros Hmaxit m. unfold randrest.
    destruct (negb (truthyZ repeat) && negb (truthyQ balance)).
    + destruct (choice stream pool (n + 1) st0) as [[samples|] st]; [|done].
      unfold finish. by destruct (unique Vle (init samples)).
    + apply retry_past_budget. lia.
Qed.

(** The loop is the same for two settings that check alike. *)
Lemma retry_check_ext stream pool n repeat1 balance1 repeat2 balance2 maxit
    fuel stop st :
  (∀ samples, check Vle pool n repeat1 balance1 samples
              = check Vle pool n repeat2 balance2 samples) →
  retry Vle stream pool n repeat1 balance1 maxit fuel stop st
  = retry Vle stream pool n repeat2 balance2 maxit fuel stop st.
Proof.
  intros Hext. revert stop st.
  induction fuel as [|fuel IH]; intros stop st; [done|]. simpl.
  destruct (choice stream pool (n + 1) (enter_loop st))
    as [[samples|] st1]; [|done].
  rewrite Hext, IH. done.
Qed.

Lemma truthyQ_zero (b : Q) : (b == 0)%Q → truthyQ (Some b) = false.
Proof. intros Hb. simpl. apply negb_false_iff. by apply Qeq_bool_iff. Qed.

Lemma truthyQ_nonzero (b : Q) : ¬ (b == 0)%Q → truthyQ (Some b) = true.
Proof.
  intros Hb. simpl. apply negb_true_iff, not_true_iff_false.
  by rewrite Qeq_bool_iff.
Qed.

(** On a pool of one value every candidate is a single run. *)
Lemma check_single_value v n r balance samples :
  drawn [v] n samples → 0 < r < n →
  check Vle [v] n (Some r) balance samples = true.
Proof.
  intros (_ & Hl & Hpool) Hr.
  destruct (Z_of_nat_complete n) as [n' ->]; [lia|].
  apply check_true_repeat; [rewrite Hl; lia|lia|].
  exists 0%nat, v. intros i Hi. simpl.
  destruct (lookup_lt_is_Some_2 (init samples) i) as [x Hx].
  { rewrite length_init, Hl. lia. }
  rewrite Hx. f_equal.
  apply list_elem_of_lookup_2 in Hx. rewrite init_take in Hx.
  apply subseteq_take, Hpool in Hx. by apply list_elem_of_singleton in Hx.
Qed.

(** When the balance check lets no count from 1 to [n] pass, every
    candidate of at least one element is out of balance. *)
Lemma check_empty_band pool n repeat t samples :
  drawn pool n samples → 0 < n → ¬ (t == 0)%Q →
  (∀ c, (0 < c)%nat → Z.of_nat c ≤ n → ¬ passes_band n (length pool) t c) →
  check Vle pool n repeat (Some t) samples = true.
Proof.
  intros (_ & Hl & _) Hn Ht Hband.
  assert (length (init samples) = Z.to_nat n) as Hlen.
  { rewrite length_init, Hl. lia. }
  destruct (init samples) as [|v l] eqn:Hinit.
  { simpl in Hlen. lia. }
  apply (check_true_balance Vle pool n repeat t samples v).
  - by apply truthyQ_nonzero.
  - rewrite Hinit. left.
  - rewrite Hinit. apply Hband.
    + apply count_elem_of. left.
    + pose proof (count_le_length (v :: l) v). lia.
Qed.

(** A restriction given as 0 is a restriction not set. *)
Lemma zero_repeat_unset stream pool n balance maxit fuel :
  randrest Vle stream pool n (Some 0) balance maxit fuel
  = randrest Vle stream pool n None balance maxit fuel.
Proof.
  unfold randrest. simpl.
  by rewrite (retry_check_ext _ _ _ (Some 0) _ None balance).
Qed.

Lemma zero_balance_unset stream pool n repeat b maxit fuel :
  (b == 0)%Q →
  randrest Vle stream pool n repeat (Some b) maxit fuel
  = randrest Vle stream pool n repeat None maxit fuel.
Proof.
  intros Hb. unfold randrest. rewrite (truthyQ_zero b Hb). simpl.
  rewrite (retry_check_ext _ _ _ repeat (Some b) repeat None); [done|].
  intros samples. unfold check. by rewrite (truthyQ_zero b Hb).
Qed.

(** An infeasible setting has an active restriction that rejects every
    candidate. *)
Lemma infeasible_rejects pool n repeat balance :
  infeasible pool n repeat balance →
  negb (truthyZ repeat) && negb (truthyQ balance) = false
  ∧ 0 ≤ n ∧ pool ≠ []
  ∧ ∀ samples, drawn pool n samples →
      check Vle pool n repeat balance samples = true.
Proof.
  intros [(v & r & -> & -> & Hr)|(t & Hpool & Hn & -> & Ht & Hband)].
  - split_and!; [|lia|done|].
    + simpl. by rewrite bool_decide_eq_true_2 by lia.
    + intros samples Hd. by apply check_single_value.
  - split_and!; [|lia|done|].
    + rewrite (truthyQ_nonzero t Ht). apply andb_false_r.
    + intros samples Hd. by apply check_empty_band.
Qed.

(** C2 (amended). A call whose active restrictions no candidate can meet
    ([repeat = r] with [1 ≤ r < n] on a pool of one value, or a non-zero
    [balance] whose band, as line 76 computes it in floats, lets none of
    the counts 1, ..., [n] pass, with [n ≥ 1]), with a budget
    [maxit ≥ 1], draws [maxit] candidates and raises [StopIteration]: it
    neither loops on nor returns a sequence. *)
Theorem infeasible_exhausts_budget stream pool n repeat balance maxit fuel :
  1 ≤ maxit → (Z.to_nat maxit ≤ fuel)%nat →
  infeasible pool n repeat balance →
  ∃ st, randrest Vle stream pool n repeat balance maxit fuel
        = (Some (StopIteration maxit), st)
        ∧ Z.of_nat (draws st) = maxit.
Proof.
  intros Hmaxit Hfuel (Hon & Hn & Hpool & Hrej)%infeasible_rejects.
  unfold randrest. rewrite Hon.
  destruct (retry_rejecting Vle stream pool n repeat balance maxit
              fuel 1 st0) as (st & -> & Hd);
    [done|done|done|lia|by rewrite Z.sub_add|].
  exists st. split; [done|]. simpl in Hd. lia.
Qed.
End edge_cases.


(** ** Integer pools: the example of the notebook and the balance
       restriction (C8, C1) *)

Section integer_pools.
Implicit Types s : list Z.

Lemma count_cons (v x : Z) s :
  count v (x :: s) = ((if decide (x = v) then 1 else 0) + count v s)%nat.
Proof. unfold count. rewrite filter_cons. by case_decide. Qed.

Lemma elem_of_123 (x : Z) : x ∈ [1; 2; 3] ↔ x = 1 ∨ x = 2 ∨ x = 3.
Proof. rewrite !elem_of_cons, elem_of_nil. naive_solver. Qed.

Lemma count_three s :
  (∀ x, x ∈ s → x ∈ [1; 2; 3]) →
  (count 1%Z s + count 2%Z s + count 3%Z s)%nat = length s.
Proof.
  induction s as [|x s IH]; intros Hs; [done|].
  rewrite !count_cons. simpl.
  assert (x ∈ [1; 2; 3]) as Hx%elem_of_123 by (apply Hs; left).
  rewrite <-IH by (intros y Hy; apply Hs; by right).
  repeat case_decide; lia.
Qed.

(** Of the counts up to 40, the band of [n = 40], three values and
    [balance = 1] lets 13 and 14 pass, and no other. *)
Lemma band_40_3_1 (c : nat) :
  (c ≤ 40)%nat → passes_band 40 3 1 c → (13 ≤ c ≤ 14)%nat.
Proof.
  intros Hc [Hlow Hhigh].
  assert (forallb
            (λ c, implb (negb (fltb (float_of_Z (Z.of_nat c)) (band_low 40 3 1))
                         && negb (fltb (band_high 40 3 1)
                                    (float_of_Z (Z.of_nat c))))
                        ((13 <=? c)%nat && (c <=? 14)%nat))
            (seq 0 41) = true) as Hall by (vm_compute; reflexivity).
  rewrite forallb_forall in Hall.
  specialize (Hall c). rewrite in_seq, Hlow, Hhigh in Hall.
  cbn [implb negb andb] in Hall. specialize (Hall ltac:(lia)).
  apply andb_true_iff in Hall as [?%Nat.leb_le ?%Nat.leb_le]. lia.
Qed.

(** C8. Every successful call with pool [1, 2, 3], [n = 40], [repeat = 2]
    and [balance = 1] returns 40 elements of the pool, without a run of 3
    or more, in which each of 1, 2 and 3 occurs 13 or 14 times. *)
Theorem example_scenario stream maxit fuel s vs cs st :
  randrest Z.le stream [1; 2; 3] 40 (Some 2) (Some 1%Q) maxit fuel
  = (Some (Returned s vs cs), st) →
  length s = 40%nat
  ∧ (∀ x, x ∈ s → x ∈ [1; 2; 3])
  ∧ (∀ k, (3 ≤ k)%nat → ¬ has_run k s)
  ∧ ∀ v, v ∈ [1; 2; 3] → count v s = 13%nat ∨ count v s = 14%nat.
Proof.
  intros Hret.
  pose proof (randrest_returned Z.le _ _ _ _ _ _ _ _ _ _ _ Hret)
    as (samples & (_ & Hl & _) & Hcheck & Hs & _).
  assert (length s = 40%nat) as Hlen.
  { rewrite Hs, length_init, Hl. done. }
  assert (∀ x, x ∈ s → x ∈ [1; 2; 3]) as Hpool.
  { intros x. eapply (returned_pool Z.le). exact Hret. }
  split_and!; [done|done| |].
  - intros k Hk Hrun. apply (has_run_shorter _ 3) in Hrun; [|done].
    revert Hrun. rewrite Hs.
    by apply (check_false_repeat Z.le [1; 2; 3] 40%nat 2 (Some 1%Q)).
  - assert (∀ v, count v s = 0%nat ∨ (13 ≤ count v s ≤ 14)%nat) as Hband.
    { intros v. destruct (decide (v ∈ s)) as [Hv|Hv].
      - right. apply band_40_3_1.
        { rewrite <-Hlen. apply count_le_length. }
        exact (returned_balance_present Z.le stream [1; 2; 3] 40 (Some 2)
                 1%Q maxit fuel s vs cs st v eq_refl Hret Hv).
      - left. by apply count_not_elem_of. }
    pose proof (count_three s Hpool) as Hsum.
    pose proof (Hband 1) as H1. pose proof (Hband 2) as H2.
    pose proof (Hband 3) as H3.
    intros v [-> | [-> | ->]]%elem_of_123; lia.
Qed.

(** C1 (the code at the failing input). With pool [1, 2, 3], [n = 4] and
    [balance = 1] the band is [1/3, 7/3]. The candidate 1, 1, 2, 2 is
    accepted although 3, a value of the pool, occurs 0 times in it: the
    check only looks at the counts of the values that occur. *)
Theorem absent_value_accepted :
  randrest Z.le (stream_of [0; 0; 1; 1; 0]%nat) [1; 2; 3] 4 None
    (Some 1%Q) 100000 1
  = (Some (Returned [1; 1; 2; 2] [1; 2] [2; 2]%nat), State 5 1 1)
  ∧ 3 ∈ [1; 2; 3]
  ∧ count 3 [1; 1; 2; 2] = 0%nat
  ∧ (0 < inject_Z 4 / inject_Z 3 - 1)%Q
  ∧ ¬ in_band 4 3 1 0.
Proof.
  split_and!.
  - by vm_compute.
  - apply elem_of_123. auto.
  - done.
  - done.
  - unfold in_band, Qle. simpl. lia.
Qed.
End integer_pools.


(** ** Concrete runs *)

Section concrete_runs.
Local Open Scope nat_scope.

(** C6 on a run that returns 2, 1, 2 for [n = 3]. *)
Lemma returned_length_witness :
  (0 ≤ 3)%Z
  ∧ randrest Z.le (stream_of [1; 0; 1; 0]) [1; 2]%Z 3 (Some 1%Z) None 5 1
    = (Some (Returned [2; 1; 2]%Z [1; 2]%Z [1; 2]), State 4 1 1)
  ∧ Z.of_nat (length [2; 1; 2]%Z) = 3%Z.
Proof.
  assert (randrest Z.le (stream_of [1; 0; 1; 0]) [1; 2]%Z 3 (Some 1%Z) None 5 1
          = (Some (Returned [2; 1; 2]%Z [1; 2]%Z [1; 2]), State 4 1 1)) as Hrun
    by (vm_compute; reflexivity).
  split; [lia|]. split; [exact Hrun|].
  apply (returned_length Z.le (stream_of [1; 0; 1; 0]) [1; 2]%Z 3
           (Some 1%Z) None 5 1 [2; 1; 2]%Z [1; 2]%Z [1; 2] (State 4 1 1));
    [lia|exact Hrun].
Defined.

(** C3 on the same run, with [repeat = 1]. *)
Lemma returned_no_run_witness :
  (0 < 1)%Z
  ∧ randrest Z.le (stream_of [1; 0; 1; 0]) [1; 2]%Z 3 (Some 1%Z) None 5 1
    = (Some (Returned [2; 1; 2]%Z [1; 2]%Z [1; 2]), State 4 1 1)
  ∧ ¬ has_run 2 [2; 1; 2]%Z.
Proof.
  assert (randrest Z.le (stream_of [1; 0; 1; 0]) [1; 2]%Z 3 (Some 1%Z) None 5 1
          = (Some (Returned [2; 1; 2]%Z [1; 2]%Z [1; 2]), State 4 1 1)) as Hrun
    by (vm_compute; reflexivity).
  split; [lia|]. split; [exact Hrun|].
  apply (returned_no_run Z.le (stream_of [1; 0; 1; 0]) [1; 2]%Z 3
           1%Z None 5 1 [2; 1; 2]%Z [1; 2]%Z [1; 2] (State 4 1 1));
    [lia|exact Hrun|simpl; lia].
Defined.

(** C7 on pool [1, 2, 3] and [n = 4]. *)
Lemma unrestricted_first_draw_witness :
  ∃ s vs cs st,
    (∀ maxit fuel,
       randrest Z.le counting [1; 2; 3]%Z 4 None None maxit fuel
       = (Some (Returned s vs cs), st))
    ∧ draws st = 1 ∧ iters st = 0
    ∧ Z.of_nat (length s) = 4%Z ∧ ∀ x, x ∈ s → x ∈ [1; 2; 3]%Z.
Proof.
  apply (unrestricted_first_draw Z.le counting [1; 2; 3]%Z 4);
    [discriminate|lia].
Defined.

(** The two streams differ on every dummy of a candidate of 3 elements,
    and only there. *)
Lemma zeros_dummy_ones : same_but_dummy 2 2 zeros dummy_ones.
Proof.
  intros a j Hj. unfold zeros, dummy_ones.
  case_decide as Hm; [|reflexivity].
  rewrite Nat.add_comm, Nat.Div0.mod_add, Nat.mod_small in Hm; lia.
Defined.

(** C10 on these two streams. *)
Lemma dummy_irrelevant_witness :
  randrest Z.le zeros [1; 2]%Z 2 (Some 2%Z) (Some 2%Q) 3 3
  = randrest Z.le dummy_ones [1; 2]%Z 2 (Some 2%Z) (Some 2%Q) 3 3.
Proof.
  apply (dummy_irrelevant Z.le zeros dummy_ones [1; 2]%Z 2 (Some 2%Z)
           (Some 2%Q) 3 3); [lia|exact zeros_dummy_ones].
Defined.

(** C9 (amended) with both restrictions active. *)
Lemma empty_request_witness :
  randrest Z.le zeros [7]%Z 0 (Some 2%Z) (Some 1%Q) 5 1
  = (Some (Returned [] [] []), State 1 1 1).
Proof.
  apply (empty_request Z.le zeros [7]%Z (Some 2%Z) (Some 1%Q) 5 1);
    [discriminate|intros r [= <-]; lia|lia].
Defined.

(** C4 (amended) on an empty pool with budget 0. *)
Lemma no_validation_witness :
  (∃ st, randrest Z.le counting (@nil Z) 1 (Some 1%Z) None 0 1
         = (Some ValueError, st) ∧ draws st = 0)
  ∧ (∀ m, (randrest Z.le counting (@nil Z) 1 (Some 1%Z) None 0 1).1
          ≠ Some (StopIteration m)).
Proof.
  split.
  - apply (no_validation Z.le counting (@nil Z) 1 (Some 1%Z) None 0 1);
      [left; split; [reflexivity|lia]|lia].
  - apply (no_validation Z.le counting (@nil Z) 1 (Some 1%Z) None 0 1). lia.
Defined.

(** C2 (amended) on a pool of one value with [repeat = 1], and on the
    band [1/4, 3/4] of [n = 1], two values and [balance = 1/4]. *)
Lemma infeasible_exhausts_budget_witness :
  (∃ st, randrest Z.le zeros [7]%Z 2 (Some 1%Z) None 5 5
         = (Some (StopIteration 5), st) ∧ Z.of_nat (draws st) = 5%Z)
  ∧ (∃ st, randrest Z.le counting [1; 2]%Z 1 None (Some (1 # 4)%Q) 5 5
           = (Some (StopIteration 5), st) ∧ Z.of_nat (draws st) = 5%Z).
Proof.
  split.
  - apply (infeasible_exhausts_budget Z.le zeros [7]%Z 2 (Some 1%Z) None 5 5);
      [lia|lia|].
    left. exists 7%Z, 1%Z. split; [reflexivity|]. split; [reflexivity|lia].
  - apply (infeasible_exhausts_budget Z.le counting [1; 2]%Z 1 None
             (Some (1 # 4)%Q) 5 5); [lia|lia|].
    right. exists (1 # 4)%Q.
    split; [discriminate|]. split; [lia|]. split; [reflexivity|].
    split; [discriminate|].
    intros c Hc Hn. assert (c = 1) as -> by lia.
    intros [Hlow Hhigh]. vm_compute in Hhigh. discriminate.
Defined.

(** C8 on the run that draws 1, 2, 3, 1, 2, 3, ... *)
Lemma example_scenario_witness :
  randrest Z.le counting [1; 2; 3]%Z 40 (Some 2%Z) (Some 1%Q) 100000 1
  = (Some (Returned cycle40 [1; 2; 3]%Z [14; 13; 13]), State 41 1 1)
  ∧ length cycle40 = 40
  ∧ (∀ x, x ∈ cycle40 → x ∈ [1; 2; 3]%Z)
  ∧ (∀ k, 3 ≤ k → ¬ has_run k cycle40)
  ∧ ∀ v, v ∈ [1; 2; 3]%Z → count v cycle40 = 13 ∨ count v cycle40 = 14.
Proof.
  assert (randrest Z.le counting [1; 2; 3]%Z 40 (Some 2%Z) (Some 1%Q) 100000 1
          = (Some (Returned cycle40 [1; 2; 3]%Z [14; 13; 13]), State 41 1 1))
    as Hrun by (vm_compute; reflexivity).
  split; [exact Hrun|]. exact (example_scenario _ _ _ _ _ _ _ Hrun).
Defined.

(** C2 (counterexample). With a budget of 5, [repeat = 0] on a pool of
    one value with [n = 2], and [balance = 0] with [n = 3] on a pool of
    two values, both return a sequence on the first draw. *)
Lemma zero_restriction_returns :
  randrest Z.le zeros [7]%Z 2 (Some 0%Z) None 5 5
  = (Some (Returned [7; 7]%Z [7]%Z [2]), State 3 1 0)
  ∧ randrest Z.le (stream_of [0; 1; 1; 0]) [1; 2]%Z 3 None (Some 0%Q) 5 5
    = (Some (Returned [1; 2; 2]%Z [1; 2]%Z [1; 2]), State 4 1 0).
Proof. split; vm_compute; reflexivity. Qed.

(** C4 (counterexample). A budget of 0, [n = -1] and a budget of -3 are
    all accepted: the calls draw candidates (two of them in the last
    call) and return. *)
Lemma malformed_call_returns :
  randrest Z.le zeros [7]%Z 1 None None 0 0
  = (Some (Returned [7]%Z [7]%Z [1]), State 2 1 0)
  ∧ randrest Z.le zeros [7]%Z (-1) (Some 2%Z) (Some 1%Q) 5 1
    = (Some (Returned [] [] []), State 0 1 1)
  ∧ randrest Z.le (stream_of [0; 0; 0; 0; 1; 0]) [1; 2]%Z 2 (Some 1%Z)
      None (-3) 2
    = (Some (Returned [1; 2]%Z [1; 2]%Z [1; 1]), State 6 2 2).
Proof. split_and!; vm_compute; reflexivity. Qed.

(** C9 (counterexample). For [n = 0] with [repeat = 2] the empty sequence
    is returned from inside the loop: its body has run once, and without
    fuel for the loop there is no result. *)
Lemma empty_request_enters_loop :
  randrest Z.le zeros [7]%Z 0 (Some 2%Z) None 5 1
  = (Some (Returned [] [] []), State 1 1 1)
  ∧ iters (randrest Z.le zeros [7]%Z 0 (Some 2%Z) None 5 1).2 ≠ 0
  ∧ randrest Z.le zeros [7]%Z 0 (Some 2%Z) None 5 0 = (None, st0).
Proof. split_and!; [vm_compute; reflexivity|vm_compute; lia|reflexivity]. Qed.
End concrete_runs.


(** ** What a candidate is accepted for *)

Section acceptance.
Context {V : Type} `{EqDecision V} (Vle : relation V) `{!RelDecision Vle}.
Implicit Types (pool samples s vs : list V).
Implicit Types (repeat : option Z) (balance : option Q).

Lemma repeat_part_false samples (n : nat) repeat :
  length samples = S n →
  any (match repeat with
       | Some r => if truthyZ repeat then repcheck samples r else Scalar false
       | None => Scalar false
       end) = false
  ↔ ∀ r, repeat = Some r → r ≠ 0 →
         0 < r ∧ ¬ has_run (S (Z.to_nat r)) (init samples).
Proof.
  intros Hl. destruct repeat as [r|]; [|by split].
  simpl. case_bool_decide as Hr0.
  - destruct (decide (0 < r)) as [Hr|Hr].
    + pose proof (repcheck_any samples n r Hl Hr) as Hany.
      rewrite <-not_true_iff_false, Hany. split.
      * intros Hrun r' [= <-] _. done.
      * intros Hc. by destruct (Hc r eq_refl Hr0).
    + rewrite repcheck_negative by lia. simpl. split; [done|].
      intros Hc. destruct (Hc r eq_refl Hr0). lia.
  - split; [|done]. intros _ r' [= <-] ?. done.
Qed.

Lemma balance_part_false samples pool n balance :
  match balance with
  | Some b => if truthyQ balance then balcheck Vle samples n pool b else false
  | None => false
  end = false
  ↔ ∀ t, balance = Some t → ¬ (t == 0)%Q →
      ∀ v, v ∈ init samples →
           passes_band n (length pool) t (count v (init samples)).
Proof.
  destruct balance as [b|]; [|by split].
  destruct (Qeq_dec b 0) as [Hb|Hb].
  - rewrite (truthyQ_zero b Hb). split; [|done]. intros _ t [= <-] ?. done.
  - rewrite (truthyQ_nonzero b Hb), balcheck_false. split.
    + intros Hband t [= <-] _. done.
    + intros Hc. by apply Hc.
Qed.

(** X1. A candidate of [n + 1] elements passes the check exactly when its
    first [n] elements conform: an active [repeat] is positive and they
    hold no run of [repeat + 1], and with an active [balance] the count of
    every value that occurs in them passes the band as line 76 computes
    it in floats. Pool values that do not occur, and the last element,
    play no part. *)
Theorem check_accepts_iff pool (n : nat) repeat balance samples :
  length samples = S n →
  check Vle pool (Z.of_nat n) repeat balance samples = false
  ↔ conforms pool (Z.of_nat n) repeat balance (init samples).
Proof.
  intros Hl. unfold check, conforms.
  rewrite orb_false_iff, (repeat_part_false samples n repeat Hl).
  by rewrite balance_part_false.
Qed.
End acceptance.


(** ** The returned histogram *)

Section histogram.
Context {V : Type} `{EqDecision V} (Vle : relation V) `{!RelDecision Vle}.
Implicit Types (stream : nat → nat) (pool samples s l vs : list V).
Implicit Types (repeat : option Z) (balance : option Q) (st : state).

Lemma count_head (v x : V) l :
  count v (x :: l) = ((if decide (x = v) then 1 else 0) + count v l)%nat.
Proof. unfold count. rewrite filter_cons. by case_decide. Qed.

Lemma sum_list_fmap_add (f g : V → nat) vs :
  sum_list ((λ v, f v + g v)%nat <$> vs)
  = (sum_list (f <$> vs) + sum_list (g <$> vs))%nat.
Proof. induction vs as [|v vs IH]; [done|]. cbn. rewrite IH. lia. Qed.

Lemma sum_list_indicator (x : V) vs :
  NoDup vs → x ∈ vs →
  sum_list ((λ v, if decide (x = v) then 1 else 0)%nat <$> vs) = 1%nat.
Proof.
  induction 1 as [|v vs Hv Hnd IH]; intros Hx.
  - by apply elem_of_nil in Hx.
  - cbn. case_decide as Hxv.
    + subst v.
      assert (sum_list ((λ v, if decide (x = v) then 1 else 0)%nat <$> vs)
              = 0%nat) as ->; [|done].
      clear IH Hnd Hx. induction vs as [|w vs IH]; [done|]. cbn.
      apply not_elem_of_cons in Hv as [Hw Hv].
      rewrite IH by done. by case_decide.
    + apply elem_of_cons in Hx as [?|Hx]; [done|]. by rewrite IH.
Qed.

(** The counts of distinct values that cover a list add up to its
    length. *)
Lemma sum_list_counts l vs :
  NoDup vs → (∀ x, x ∈ l → x ∈ vs) →
  sum_list ((λ v, count v l) <$> vs) = length l.
Proof.
  intros Hnd. induction l as [|x l IH]; intros Hl.
  - change (sum_list ((λ _ : V, 0%nat) <$> vs) = 0%nat).
    rewrite sum_list_fmap_const. lia.
  - erewrite list_fmap_ext; [|intros ? v _; apply count_head].
    rewrite (sum_list_fmap_add (λ v, if decide (x = v) then 1 else 0)%nat),
      sum_list_indicator, IH; [done| |done|].
    + intros y Hy. apply Hl. by right.
    + apply Hl. left.
Qed.

(** What [np.unique] returns for any list. *)
Lemma unique_histogram l vs cs :
  unique Vle l = (vs, cs) →
  cs = (λ v, count v l) <$> vs
  ∧ NoDup vs ∧ (∀ v, v ∈ vs ↔ v ∈ l)
  ∧ sum_list cs = length l ∧ (∀ c, c ∈ cs → (0 < c)%nat).
Proof.
  unfold unique. intros [= <- <-].
  assert (∀ v, v ∈ merge_sort Vle (remove_dups l) ↔ v ∈ l) as Hin.
  { intros v. by rewrite merge_sort_Permutation, elem_of_remove_dups. }
  assert (NoDup (merge_sort Vle (remove_dups l))) as Hnd.
  { rewrite merge_sort_Permutation. apply NoDup_remove_dups. }
  split_and!; [done|done|done| |].
  - apply sum_list_counts; [done|]. intros x. by rewrite Hin.
  - intros c (v & -> & Hv%Hin)%list_elem_of_fmap. by apply count_elem_of.
Qed.

Lemma unique_sorted `{!Total Vle} l : Sorted Vle (unique Vle l).1.
Proof. simpl. by apply Sorted_merge_sort. Qed.

(** X2. The histogram a call returns lists every value that occurs in the
    returned sequence once, each with its number of occurrences there: no
    count is 0, and the counts add up to the length of the sequence. *)
Theorem returned_histogram stream pool n repeat balance maxit fuel s vs cs st :
  randrest Vle stream pool n repeat balance maxit fuel
  = (Some (Returned s vs cs), st) →
  cs = (λ v, count v s) <$> vs
  ∧ NoDup vs ∧ (∀ v, v ∈ vs ↔ v ∈ s)
  ∧ sum_list cs = length s ∧ (∀ c, c ∈ cs → (0 < c)%nat).
Proof.
  intros (samples & _ & _ & -> & Hu)%randrest_returned.
  by apply unique_histogram.
Qed.

(** X3. When the order [np.unique] sorts by is total, the values of the
    returned histogram come in that order. *)
Theorem returned_values_sorted `{!Total Vle} stream pool n repeat balance
    maxit fuel s vs cs st :
  randrest Vle stream pool n repeat balance maxit fuel
  = (Some (Returned s vs cs), st) →
  Sorted Vle vs.
Proof.
  intros (samples & _ & _ & -> & Hu)%randrest_returned.
  pose proof (unique_sorted (init samples)) as Hs. by rewrite <-Hu in Hs.
Qed.

(** X4. Every element of the returned sequence, and every value of the
    returned histogram, is an element of the pool. *)
Theorem returned_members stream pool n repeat balance maxit fuel s vs cs st :
  randrest Vle stream pool n repeat balance maxit fuel
  = (Some (Returned s vs cs), st) →
  (∀ x, x ∈ s → x ∈ pool) ∧ (∀ v, v ∈ vs → v ∈ pool).
Proof.
  intros Hret.
  assert (∀ x, x ∈ s → x ∈ pool) as Hs.
  { intros x. by apply (returned_pool Vle _ _ _ _ _ _ _ _ _ _ _ _ Hret). }
  split; [done|].
  apply randrest_returned in Hret as (samples & _ & _ & -> & Hu).
  symmetry in Hu. apply unique_histogram in Hu as (_ & _ & Hin & _).
  intros v Hv. by apply Hs, Hin.
Qed.

(** X5. With an active [balance = t], every count of the returned
    histogram passes the band of line 76: as floats, it is neither below
    [n/|pool| - t] nor above [n/|pool| + t]. *)
Theorem returned_counts_in_band stream pool n repeat t maxit fuel s vs cs st :
  ¬ (t == 0)%Q →
  randrest Vle stream pool n repeat (Some t) maxit fuel
  = (Some (Returned s vs cs), st) →
  ∀ c, c ∈ cs → passes_band n (length pool) t c.
Proof.
  intros Ht Hret c Hc.
  pose proof Hret as (samples & _ & Hcheck & -> & Hu)%randrest_returned.
  symmetry in Hu. apply unique_histogram in Hu as (-> & _ & Hin & _).
  apply list_elem_of_fmap in Hc as (v & -> & Hv%Hin).
  apply (check_false_balance Vle pool n repeat t samples); [|done|done].
  by apply truthyQ_nonzero.
Qed.
End histogram.


(** ** The loop, attempt by attempt *)

Section attempts.
Context {V : Type} `{EqDecision V} (Vle : relation V) `{!RelDecision Vle}.
Variables (stream : nat → nat) (pool : list V) (n : nat).
Variables (repeat : option Z) (balance : option Q) (maxit : Z).

Local Abbreviation retry' :=
  (retry Vle stream pool (Z.of_nat n) repeat balance maxit).
Local Abbreviation check' := (check Vle pool (Z.of_nat n) repeat balance).
Local Abbreviation attempt' := (attempt stream pool n).

Lemma choice_attempt (a : nat) st :
  pool ≠ [] → pos st = (a * S n)%nat →
  choice stream pool (Z.of_nat n + 1) st
  = (Some (attempt' a), State (S a * S n) (S (draws st)) (iters st)).
Proof.
  intros Hpool Hpos. unfold choice, attempt.
  destruct pool as [|d pool']; [done|]. case_decide; [lia|].
  replace (Z.to_nat (Z.of_nat n + 1)) with (S n) by lia.
  rewrite Hpos. do 2 f_equal. lia.
Qed.

(** [k] rejected candidates in a row, none of them at the budget, are [k]
    turns of the loop. *)
Lemma retry_rejected_prefix (k : nat) fuel stop st (a : nat) :
  pool ≠ [] → pos st = (a * S n)%nat →
  (∀ b, (b < k)%nat → check' (attempt' (a + b)) = true) →
  (∀ b, (b < k)%nat → stop + Z.of_nat b ≠ maxit) →
  retry' (k + fuel) stop st
  = retry' fuel (stop + Z.of_nat k)
      (State ((a + k) * S n) (draws st + k) (iters st + k)).
Proof.
  intros Hpool. revert stop st a.
  induction k as [|k IH]; intros stop st a Hpos Hrej Hstop.
  - rewrite Z.add_0_r, !Nat.add_0_r. simpl. destruct st. simpl in Hpos.
    by rewrite Hpos.
  - simpl. rewrite (choice_attempt a) by done.
    pose proof (Hrej 0%nat ltac:(lia)) as H0. rewrite Nat.add_0_r in H0.
    rewrite H0. case_decide as Hm.
    { destruct (Hstop 0%nat ltac:(lia)). lia. }
    rewrite (IH (stop + 1) _ (S a)); cbn [pos draws iters].
    + f_equal; [lia|]. destruct st. f_equal; simpl; lia.
    + done.
    + intros b Hb. specialize (Hrej (S b) ltac:(lia)).
      by replace (a + S b)%nat with (S a + b)%nat in Hrej by lia.
    + intros b Hb. specialize (Hstop (S b) ltac:(lia)). lia.
Qed.

Lemma retry_first_accept (a : nat) fuel :
  pool ≠ [] →
  (∀ b, (b < a)%nat → check' (attempt' b) = true) →
  check' (attempt' a) = false →
  maxit ≤ 0 ∨ Z.of_nat a < maxit →
  retry' (a + S fuel) 1 st0
  = (Some (finish Vle (attempt' a)), State (S a * S n) (S a) (S a)).
Proof.
  intros Hpool Hrej Hacc Hm.
  rewrite (retry_rejected_prefix a (S fuel) 1 st0 0); [|done|done|done|lia].
  simpl. rewrite (choice_attempt a) by done. by rewrite Hacc.
Qed.

Lemma active_enters_loop :
  truthyZ repeat || truthyQ balance = true →
  negb (truthyZ repeat) && negb (truthyQ balance) = false.
Proof. rewrite <-negb_orb. by intros ->. Qed.

(** X6. With a restriction active, the call returns the first candidate
    that passes the check, provided the budget allows that many attempts
    (or is not positive): the candidates before it are drawn and dropped,
    and the stream is read up to the dummy of the accepted one. *)
Theorem first_conforming_returned (a fuel : nat) :
  pool ≠ [] → truthyZ repeat || truthyQ balance = true →
  (∀ b, (b < a)%nat → check' (attempt' b) = true) →
  check' (attempt' a) = false →
  maxit ≤ 0 ∨ Z.of_nat a < maxit →
  (a < fuel)%nat →
  randrest Vle stream pool (Z.of_nat n) repeat balance maxit fuel
  = (Some (finish Vle (attempt' a)), State (S a * S n) (S a) (S a)).
Proof.
  intros Hpool Hon%active_enters_loop Hrej Hacc Hm Hfuel.
  unfold randrest. rewrite Hon.
  replace fuel with (a + S (fuel - S a))%nat by lia.
  by apply retry_first_accept.
Qed.

(** X7. With a restriction active and a budget [maxit ≥ 1], a stream whose
    first [maxit] candidates all fail the check makes the call raise
    [StopIteration] after exactly these [maxit] draws, whatever comes
    later in the stream. *)
Theorem rejected_budget_exhausted (fuel : nat) :
  pool ≠ [] → truthyZ repeat || truthyQ balance = true →
  1 ≤ maxit →
  (∀ b, Z.of_nat b < maxit → check' (attempt' b) = true) →
  (Z.to_nat maxit ≤ fuel)%nat →
  randrest Vle stream pool (Z.of_nat n) repeat balance maxit fuel
  = (Some (StopIteration maxit),
     State (Z.to_nat maxit * S n) (Z.to_nat maxit) (Z.to_nat maxit)).
Proof.
  intros Hpool Hon%active_enters_loop Hm Hrej Hfuel.
  unfold randrest. rewrite Hon.
  replace fuel with (Z.to_nat (maxit - 1) + S (fuel - Z.to_nat maxit))%nat
    by lia.
  rewrite (retry_rejected_prefix _ _ 1 st0 0); [|done|done| |].
  - simpl. rewrite (choice_attempt (Z.to_nat (maxit - 1))) by done.
    rewrite Hrej by lia. case_decide; [|lia].
    unfold enter_loop. cbn [pos draws iters].
    f_equal. f_equal; lia.
  - intros b Hb. apply Hrej. lia.
  - intros b Hb. lia.
Qed.

(** X8. With a restriction active and a budget [maxit ≤ 0], the loop has
    no bound: on a stream whose candidates all fail the check the call
    never ends (whatever the fuel, the loop uses it all, one draw per
    turn). *)
Theorem nonpositive_budget_unbounded (fuel : nat) :
  pool ≠ [] → truthyZ repeat || truthyQ balance = true →
  maxit ≤ 0 →
  (∀ b, check' (attempt' b) = true) →
  randrest Vle stream pool (Z.of_nat n) repeat balance maxit fuel
  = (None, State (fuel * S n) fuel fuel).
Proof.
  intros Hpool Hon%active_enters_loop Hm Hrej.
  unfold randrest. rewrite Hon.
  replace fuel with (fuel + 0)%nat at 1 by lia.
  rewrite (retry_rejected_prefix _ _ 1 st0 0); [done|done|done| |].
  - intros b _. apply Hrej.
  - intros b _. lia.
Qed.

(** The loop on a stream whose first [maxit] candidates all fail. *)
Lemma retry_budget_rejected (fuel : nat) :
  pool ≠ [] → 1 ≤ maxit →
  (∀ b, Z.of_nat b < maxit → check' (attempt' b) = true) →
  (Z.to_nat maxit ≤ fuel)%nat →
  retry' fuel 1 st0
  = (Some (StopIteration maxit),
     State (Z.to_nat maxit * S n) (Z.to_nat maxit) (Z.to_nat maxit)).
Proof.
  intros Hpool Hm Hrej Hfuel.
  replace fuel with (Z.to_nat (maxit - 1) + S (fuel - Z.to_nat maxit))%nat
    by lia.
  rewrite (retry_rejected_prefix _ _ 1 st0 0); [|done|done| |].
  - simpl. rewrite (choice_attempt (Z.to_nat (maxit - 1))) by done.
    rewrite Hrej by lia. case_decide; [|lia].
    unfold enter_loop. cbn [pos draws iters].
    f_equal. f_equal; lia.
  - intros b Hb. apply Hrej. lia.
  - intros b Hb. lia.
Qed.

(** Among the first [m] attempts, either one is the first to pass the
    check, or all fail. *)
Lemma first_passing (m : nat) :
  (∃ a, (a < m)%nat ∧ check' (attempt' a) = false
        ∧ ∀ b, (b < a)%nat → check' (attempt' b) = true)
  ∨ (∀ b, (b < m)%nat → check' (attempt' b) = true).
Proof.
  induction m as [|m [(a & Ha & Hacc & Hrej)|Hall]].
  - right. intros b Hb. lia.
  - left. exists a. split_and!; [lia|done..].
  - destruct (check' (attempt' m)) eqn:Hm.
    + right. intros b Hb.
      destruct (decide (b = m)) as [->|]; [done|]. apply Hall. lia.
    + left. exists m. split_and!; [lia|done|done].
Qed.
End attempts.


(** ** Edge values of [repeat], and the cost of a call *)

Section edges.
Context {V : Type} `{EqDecision V} (Vle : relation V) `{!RelDecision Vle}.
Implicit Types (stream : nat → nat) (pool samples : list V).
Implicit Types (repeat : option Z) (balance : option Q) (st : state).

Lemma length_attempt stream pool (n a : nat) :
  pool ≠ [] → length (attempt stream pool n a) = S n.
Proof.
  intros Hpool. unfold attempt. destruct pool; [done|].
  apply length_candidate.
Qed.

Lemma check_negative_repeat pool n r balance samples :
  r < 0 → check Vle pool n (Some r) balance samples = true.
Proof.
  intros Hr. unfold check. simpl.
  rewrite bool_decide_eq_true_2 by lia.
  by rewrite repcheck_negative by lia.
Qed.

(** X9. A negative [repeat] rejects every candidate: with a non-empty
    pool, any [n ≥ 0] (also [n = 0]) and a budget [maxit ≥ 1] the call
    draws [maxit] candidates and raises [StopIteration]. *)
Theorem negative_repeat_rejects stream pool n r balance maxit fuel :
  r < 0 → pool ≠ [] → 0 ≤ n → 1 ≤ maxit → (Z.to_nat maxit ≤ fuel)%nat →
  ∃ st, randrest Vle stream pool n (Some r) balance maxit fuel
        = (Some (StopIteration maxit), st)
        ∧ Z.of_nat (draws st) = maxit.
Proof.
  intros Hr Hpool Hn Hmaxit Hfuel. unfold randrest. simpl.
  rewrite bool_decide_eq_true_2 by lia. simpl.
  destruct (retry_rejecting Vle stream pool n (Some r) balance maxit
              fuel 1 st0) as (st & -> & Hd);
    [|done|done|lia|by rewrite Z.sub_add|].
  - intros samples _. by apply check_negative_repeat.
  - exists st. split; [done|]. simpl in Hd. lia.
Qed.

Lemma check_large_repeat pool (n : nat) r balance samples :
  length samples = S n → 0 < r → Z.of_nat n ≤ r →
  truthyQ balance = false →
  check Vle pool (Z.of_nat n) (Some r) balance samples = false.
Proof.
  intros Hl Hr Hnr Hb. unfold check. apply orb_false_iff. split.
  - apply (repeat_part_false samples n (Some r) Hl).
    intros r' [= <-] _. split; [done|].
    intros (j & v & Hrun).
    specialize (Hrun (Z.to_nat r) ltac:(lia)).
    apply lookup_lt_Some in Hrun. rewrite length_init, Hl in Hrun. lia.
  - destruct balance as [b|]; [|done]. by rewrite Hb.
Qed.

(** X10. A [repeat] of [n] or more cannot be broken by [n] elements: with
    [balance] not active the call returns the first candidate it draws,
    from the first turn of the loop, whatever the budget. *)
Theorem large_repeat_accepts stream pool (n : nat) r balance maxit fuel :
  0 < r → Z.of_nat n ≤ r → truthyQ balance = false →
  pool ≠ [] → (0 < fuel)%nat →
  randrest Vle stream pool (Z.of_nat n) (Some r) balance maxit fuel
  = (Some (finish Vle (attempt stream pool n 0)), State (S n) 1 1).
Proof.
  intros Hr Hnr Hb Hpool Hfuel. unfold randrest. simpl.
  rewrite bool_decide_eq_true_2 by lia. simpl.
  destruct fuel as [|fuel]; [lia|].
  change (S fuel) with (0 + S fuel)%nat.
  rewrite (retry_first_accept Vle stream pool n (Some r) balance maxit 0 fuel);
    [do 2 f_equal; lia|done|intros b Hb'; lia| |].
  - apply check_large_repeat; [by apply length_attempt|done..].
  - destruct (decide (maxit ≤ 0)); [by left|right; lia].
Qed.

Lemma retry_pos stream pool n repeat balance maxit fuel stop st :
  pos st = (draws st * Z.to_nat (n + 1))%nat →
  pos (retry Vle stream pool n repeat balance maxit fuel stop st).2
  = (draws (retry Vle stream pool n repeat balance maxit fuel stop st).2
     * Z.to_nat (n + 1))%nat.
Proof.
  revert stop st. induction fuel as [|fuel IH]; intros stop st Hpos; [done|].
  simpl.
  destruct (choice stream pool (n + 1) (enter_loop st))
    as [[samples|] st1] eqn:Hc.
  - apply choice_Some in Hc as (_ & _ & _ & _ & ->).
    destruct (check Vle pool n repeat balance samples).
    + case_decide; [simpl; lia|]. apply IH. simpl. lia.
    + simpl. lia.
  - apply choice_None in Hc as [_ ->]. done.
Qed.

(** X11. A call reads [n + 1] numbers of the random stream for every
    candidate it draws, the dummy included: where it ends, its position
    in the stream is [n + 1] times the number of its draws. *)
Theorem stream_consumption stream pool n repeat balance maxit fuel :
  pos (randrest Vle stream pool n repeat balance maxit fuel).2
  = (draws (randrest Vle stream pool n repeat balance maxit fuel).2
     * Z.to_nat (n + 1))%nat.
Proof.
  unfold randrest.
  destruct (negb (truthyZ repeat) && negb (truthyQ balance)).
  - destruct (choice stream pool (n + 1) st0) as [[samples|] st1] eqn:Hc.
    + apply choice_Some in Hc as (_ & _ & _ & _ & ->). simpl. lia.
    + apply choice_None in Hc as [_ ->]. done.
  - by apply retry_pos.
Qed.
End edges.


(** ** The demonstration cells *)

Section demo_cells.
Implicit Types (stream : nat → nat) (s vs : list Z) (cs : list nat).

Lemma retry_no_draw_error stream (pool : list Z) n repeat balance maxit
    fuel stop st :
  pool ≠ [] → 0 ≤ n →
  (retry Z.le stream pool n repeat balance maxit fuel stop st).1
  ≠ Some ValueError.
Proof.
  intros Hpool Hn. revert stop st.
  induction fuel as [|fuel IH]; intros stop st; [done|]. simpl.
  destruct (choice_valid stream pool (n + 1) (enter_loop st))
    as [samples ->]; [done|lia|].
  destruct (check Z.le pool n repeat balance samples).
  - case_decide; [done|]. apply IH.
  - unfold finish. by destruct (unique Z.le (init samples)).
Qed.

Lemma demo_no_draw_error stream repeat fuel :
  (randrest Z.le stream [1; 2; 3] 40 repeat (Some 1%Q) 100000 fuel).1
  ≠ Some ValueError.
Proof.
  unfold randrest.
  replace (negb (truthyZ repeat) && negb (truthyQ (Some 1%Q))) with false
    by (by rewrite andb_false_r).
  by apply retry_no_draw_error.
Qed.

(** What a call of the cells returns, whatever its [repeat]. *)
Lemma demo_call stream repeat maxit fuel s vs cs st :
  randrest Z.le stream [1; 2; 3] 40 repeat (Some 1%Q) maxit fuel
  = (Some (Returned s vs cs), st) →
  length s = 40%nat ∧ vs = [1; 2; 3]
  ∧ cs = [count 1 s; count 2 s; count 3 s]
  ∧ (count 1%Z s + count 2%Z s + count 3%Z s = 40)%nat
  ∧ ∀ v, v ∈ [1; 2; 3] → (13 ≤ count v s ≤ 14)%nat.
Proof.
  intros Hret.
  pose proof (randrest_returned Z.le _ _ _ _ _ _ _ _ _ _ _ Hret)
    as (samples & (_ & Hl & _) & Hcheck & Hs & Hu).
  assert (length s = 40%nat) as Hlen.
  { rewrite Hs, length_init, Hl. done. }
  assert (∀ x, x ∈ s → x ∈ [1; 2; 3]) as Hpool.
  { intros x. eapply (returned_pool Z.le). exact Hret. }
  assert (∀ v, count v s = 0%nat ∨ (13 ≤ count v s ≤ 14)%nat) as Hband.
  { intros v. destruct (decide (v ∈ s)) as [Hv|Hv].
    - right. apply band_40_3_1.
      { rewrite <-Hlen. apply count_le_length. }
      exact (returned_balance_present Z.le stream [1; 2; 3] 40 repeat
               1%Q maxit fuel s vs cs st v eq_refl Hret Hv).
    - left. by apply count_not_elem_of. }
  pose proof (count_three s Hpool) as Hsum. rewrite Hlen in Hsum.
  pose proof (Hband 1) as H1. pose proof (Hband 2) as H2.
  pose proof (Hband 3) as H3.
  assert (∀ v, v ∈ [1; 2; 3] → (13 ≤ count v s ≤ 14)%nat) as Hall.
  { intros v [-> | [-> | ->]]%elem_of_123; lia. }
  symmetry in Hu. rewrite <-Hs in Hu.
  pose proof (unique_sorted Z.le s) as Hsorted. rewrite Hu in Hsorted.
  apply unique_histogram in Hu as (Hcs & Hnd & Hin & _).
  assert (vs = [1; 2; 3]) as ->.
  { apply (Sorted_unique Z.le); [done|repeat constructor; lia|].
    apply NoDup_Permutation;
      [done|apply (bool_decide_unpack (NoDup [1; 2; 3])); by vm_compute|].
    intros v. rewrite Hin. split; [apply Hpool|].
    intros Hv. destruct (decide (v ∈ s)) as [|Hn]; [done|].
    apply (count_not_elem_of s v) in Hn. specialize (Hall v Hv). lia. }
  by rewrite Hcs.
Qed.

Lemma demo_totals s cs :
  length s = 40%nat →
  cs = [count 1 s; count 2 s; count 3 s] →
  totals s [1; 2; 3] cs
  = Some (Totals 40 [(1, count 1 s); (2, count 2 s); (3, count 3 s)]).
Proof. intros Hl ->. unfold totals. simpl. by rewrite Hl. Qed.

Lemma demo_call_ends stream repeat fuel :
  100000 ≤ Z.of_nat fuel →
  (randrest Z.le stream [1; 2; 3] 40 repeat (Some 1%Q) 100000 fuel).1 ≠ None.
Proof.
  intros Hfuel. unfold randrest.
  replace (negb (truthyZ repeat) && negb (truthyQ (Some 1%Q))) with false
    by (by rewrite andb_false_r).
  destruct (retry_within_budget Z.le stream [1; 2; 3] 40 repeat (Some 1%Q)
              100000 fuel 1 st0) as (o & st & -> & _); [done|lia|lia|lia|done].
Qed.

(** The passes of a cell, from any pass number and any stream on. *)
Lemma cell_items repeat fuel passes i stream :
  (cell repeat fuel passes i stream).2 ≠ IndexError
  ∧ (cell repeat fuel passes i stream).2 ≠ DrawFailed
  ∧ Forall good_item (cell repeat fuel passes i stream).1
  ∧ ((cell repeat fuel passes i stream).2 = Done →
     length (cell repeat fuel passes i stream).1 = (4 * passes)%nat)
  ∧ (100000 ≤ Z.of_nat fuel →
     (cell repeat fuel passes i stream).2 ≠ OutOfFuel).
Proof.
  revert i stream. induction passes as [|passes IH]; intros i stream.
  { simpl. split_and!; done. }
  cbn [cell].
  pose proof (demo_call_ends stream repeat fuel) as Hends.
  pose proof (demo_no_draw_error stream repeat fuel) as Hdraw.
  destruct (randrest Z.le stream [1; 2; 3] 40 repeat (Some 1%Q) 100000 fuel)
    as [[[s vs cs|m|]|] st] eqn:Hret.
  - apply demo_call in Hret as (Hl & -> & Hcs & Hsum & Hall).
    rewrite (demo_totals s cs Hl Hcs).
    specialize (IH (S i) (λ p, stream (pos st + p)%nat)).
    destruct (cell repeat fuel passes (S i) (λ p, stream (pos st + p)%nat))
      as [out e].
    simpl in *. destruct IH as (? & ? & Hgood & Hlen & ?).
    split_and!; [done|done| | |done].
    + repeat constructor; [|done|done].
      exists (count 1%Z s), (count 2%Z s), (count 3%Z s).
      split_and!; [done|done|apply Hall..]; apply elem_of_123; auto.
    + intros He. rewrite Hlen by done. lia.
  - simpl. split_and!; done.
  - by destruct Hdraw.
  - simpl. split_and!; [done..|]. intros Hfuel. by destruct Hends.
Qed.

(** X12. The two cells of the notebook never fail on [values[k]] or
    [counts[k]], [k ≤ 2]: every sequence their calls return holds all of
    1, 2 and 3, so each pass prints a total of 40 and the tallies of 1, 2
    and 3 in this order, each 13 or 14. A cell ends after its ten passes,
    or earlier with [StopIteration] from a call. *)
Theorem demo_cells_print_well fuel stream :
  prints_well fuel (cell_unrestricted_repeat fuel stream)
  ∧ prints_well fuel (cell_repeat_2 fuel stream).
Proof.
  unfold prints_well, cell_unrestricted_repeat, cell_repeat_2.
  split.
  - destruct (cell_items None fuel 10 0 stream) as (? & ? & ? & Hlen & ?).
    split_and!; [done..| |done]. intros He. by rewrite Hlen.
  - destruct (cell_items (Some 2) fuel 10 0 stream) as (? & ? & ? & Hlen & ?).
    split_and!; [done..| |done]. intros He. by rewrite Hlen.
Qed.
End demo_cells.

(** ** Concrete runs of the further properties *)

Section further_runs.
Local Open Scope nat_scope.

(** X1 on the candidate 2, 1, 2 with dummy 1, for [repeat = 1]. *)
Lemma check_accepts_iff_witness :
  check Z.le [1; 2]%Z 3 (Some 1%Z) None [2; 1; 2; 1]%Z = false
  ↔ conforms [1; 2]%Z 3 (Some 1%Z) None (init [2; 1; 2; 1]%Z).
Proof.
  apply (check_accepts_iff Z.le [1; 2]%Z 3 (Some 1%Z) None [2; 1; 2; 1]%Z).
  reflexivity.
Defined.

Lemma histogram_run :
  randrest Z.le (stream_of [1; 0; 1; 0]) [1; 2]%Z 3 (Some 1%Z) (Some 1%Q) 5 1
  = (Some (Returned [2; 1; 2]%Z [1; 2]%Z [1; 2]), State 4 1 1).
Proof. vm_compute. reflexivity. Defined.

(** X2 on a run that returns 2, 1, 2. *)
Lemma returned_histogram_witness :
  [1; 2] = (λ v, count v [2; 1; 2]%Z) <$> [1; 2]%Z
  ∧ NoDup [1; 2]%Z ∧ (∀ v, v ∈ [1; 2]%Z ↔ v ∈ [2; 1; 2]%Z)
  ∧ sum_list [1; 2] = length [2; 1; 2]%Z ∧ (∀ c, c ∈ [1; 2] → 0 < c).
Proof. exact (returned_histogram Z.le _ _ _ _ _ _ _ _ _ _ _ histogram_run). Defined.

(** X3 on the same run. *)
Lemma returned_values_sorted_witness : Sorted Z.le [1; 2]%Z.
Proof.
  exact (returned_values_sorted Z.le _ _ _ _ _ _ _ _ _ _ _ histogram_run).
Defined.

(** X4 on the same run. *)
Lemma returned_members_witness :
  (∀ x, x ∈ [2; 1; 2]%Z → x ∈ [1; 2]%Z) ∧ (∀ v, v ∈ [1; 2]%Z → v ∈ [1; 2]%Z).
Proof. exact (returned_members Z.le _ _ _ _ _ _ _ _ _ _ _ histogram_run). Defined.

(** X5 on the same run: the band is [1/2, 5/2]. *)
Lemma returned_counts_in_band_witness :
  passes_band 3 2 1 1 ∧ passes_band 3 2 1 2.
Proof.
  split;
    apply (returned_counts_in_band Z.le (stream_of [1; 0; 1; 0]) [1; 2]%Z 3
             (Some 1%Z) 1%Q 5 1 [2; 1; 2]%Z [1; 2]%Z [1; 2] (State 4 1 1));
    [discriminate|exact histogram_run|left
    |discriminate|exact histogram_run|right; left].
Defined.

(** X6: the first candidate 1, 1 is rejected, the second 1, 2 returned. *)
Lemma first_conforming_returned_witness :
  randrest Z.le (stream_of [0; 0; 0; 0; 1; 0]) [1; 2]%Z 2 (Some 1%Z) None 5 2
  = (Some (finish Z.le
             (attempt (stream_of [0; 0; 0; 0; 1; 0]) [1; 2]%Z 2 1)),
     State 6 2 2).
Proof.
  apply (first_conforming_returned Z.le (stream_of [0; 0; 0; 0; 1; 0])
           [1; 2]%Z 2 (Some 1%Z) None 5 1 2);
    [discriminate|reflexivity| |reflexivity|right; lia|lia].
  intros b Hb. assert (b = 0) as -> by lia. reflexivity.
Defined.

(** X7: all candidates are 1, 1; the budget is 3. *)
Lemma rejected_budget_exhausted_witness :
  randrest Z.le zeros [1; 2]%Z 2 (Some 1%Z) None 3 3
  = (Some (StopIteration 3), State 9 3 3).
Proof.
  apply (rejected_budget_exhausted Z.le zeros [1; 2]%Z 2 (Some 1%Z) None 3 3);
    [discriminate|reflexivity|lia| |lia].
  intros b _. reflexivity.
Defined.

(** X8: the same candidates with budget 0 and fuel for 7 turns. *)
Lemma nonpositive_budget_unbounded_witness :
  randrest Z.le zeros [1; 2]%Z 2 (Some 1%Z) None 0 7 = (None, State 21 7 7).
Proof.
  apply (nonpositive_budget_unbounded Z.le zeros [1; 2]%Z 2 (Some 1%Z) None
           0 7); [discriminate|reflexivity|lia|].
  intros b. reflexivity.
Defined.

(** X9 with [repeat = -1] and [n = 0]. *)
Lemma negative_repeat_rejects_witness :
  ∃ st, randrest Z.le counting [1; 2]%Z 0 (Some (-1)%Z) None 4 4
        = (Some (StopIteration 4), st)
        ∧ Z.of_nat (draws st) = 4%Z.
Proof.
  apply (negative_repeat_rejects Z.le counting [1; 2]%Z 0 (-1) None 4 4);
    [lia|discriminate|lia|lia|lia].
Defined.

(** X10 with [repeat = 3 = n] on a pool of one value. *)
Lemma large_repeat_accepts_witness :
  randrest Z.le zeros [7]%Z 3 (Some 3%Z) None 1 1
  = (Some (finish Z.le (attempt zeros [7]%Z 3 0)), State 4 1 1).
Proof.
  apply (large_repeat_accepts Z.le zeros [7]%Z 3 3 None 1 1);
    [lia|lia|reflexivity|discriminate|lia].
Defined.
End further_runs.


(** ** The budget (C5) *)

Section budget_bound.
Context {V : Type} `{EqDecision V} (Vle : relation V) `{!RelDecision Vle}.
Implicit Types (stream : nat → nat) (pool : list V).
Implicit Types (repeat : option Z) (balance : option Q).

(** C5. A call with a non-empty pool, [n ≥ 0] and a budget [maxit ≥ 1]
    ends (fuel [maxit] is enough for the loop) after at least one and at
    most [maxit] draws. Either it returns: then what it returns is the
    last candidate drawn, that candidate passes the check and every
    candidate drawn before it failed. Or it raises [StopIteration]: then
    the loop body has run [maxit] times, and all of the [maxit]
    candidates drawn failed the check. *)
Theorem bounded_draws stream pool n repeat balance maxit fuel :
  pool ≠ [] → 0 ≤ n → 1 ≤ maxit → (Z.to_nat maxit ≤ fuel)%nat →
  ∃ o st,
    randrest Vle stream pool n repeat balance maxit fuel = (Some o, st)
    ∧ (1 ≤ draws st)%nat ∧ Z.of_nat (draws st) ≤ maxit
    ∧ ((∃ s vs cs, o = Returned s vs cs
          ∧ o = finish Vle (attempt stream pool (Z.to_nat n) (draws st - 1))
          ∧ check Vle pool n repeat balance
              (attempt stream pool (Z.to_nat n) (draws st - 1)) = false
          ∧ ∀ b, (b < draws st - 1)%nat →
                 check Vle pool n repeat balance
                   (attempt stream pool (Z.to_nat n) b) = true)
       ∨ (o = StopIteration maxit
          ∧ Z.of_nat (draws st) = maxit ∧ Z.of_nat (iters st) = maxit
          ∧ ∀ b, Z.of_nat b < maxit →
                 check Vle pool n repeat balance
                   (attempt stream pool (Z.to_nat n) b) = true)).
Proof.
  intros Hpool Hn Hmaxit Hfuel.
  destruct (Z_of_nat_complete n Hn) as [n' ->]. rewrite Nat2Z.id.
  assert (∀ a, ∃ s vs cs,
            finish Vle (attempt stream pool n' a) = Returned s vs cs) as Hfin.
  { intros a. unfold finish.
    destruct (unique Vle (init (attempt stream pool n' a))). eauto. }
  unfold randrest.
  destruct (negb (truthyZ repeat) && negb (truthyQ balance)) eqn:Hoff.
  - apply andb_true_iff in Hoff as [Hr%negb_true_iff Hb%negb_true_iff].
    rewrite (choice_attempt stream pool n' 0 st0) by done.
    eexists _, _. split; [done|]. unfold st0. cbn [draws].
    split_and!; [lia..|].
    left. destruct (Hfin 0%nat) as (s & vs & cs & Hs).
    exists s, vs, cs. split_and!; [done|done|by apply check_off|].
    intros b Hlt. lia.
  - destruct (first_passing Vle stream pool n' repeat balance (Z.to_nat maxit))
      as [(a & Ha & Hacc & Hrej)|Hall].
    + replace fuel with (a + S (fuel - S a))%nat by lia.
      rewrite (retry_first_accept Vle stream pool n' repeat balance maxit)
        by (done || lia).
      eexists _, _. split; [done|]. cbn [draws].
      split_and!; [lia..|]. left.
      destruct (Hfin a) as (s & vs & cs & Hs).
      replace (S a - 1)%nat with a by lia.
      exists s, vs, cs. by split_and!.
    + rewrite (retry_budget_rejected Vle stream pool n' repeat balance maxit);
        [|done|done| |done].
      * eexists _, _. split; [done|]. cbn [draws iters].
        split_and!; [lia..|]. right. split_and!; [done|lia|lia|].
        intros b Hb. apply Hall. lia.
      * intros b Hb. apply Hall. lia.
Qed.
End budget_bound.

Section budget_run.
Local Open Scope nat_scope.

(** C5 on a call with budget 3: the first candidate 1, 1 fails, the
    second 1, 2 is returned. *)
Lemma bounded_draws_witness :
  ∃ o st,
    randrest Z.le (stream_of [0; 0; 1; 0; 1; 1; 0; 1; 0]) [1; 2]%Z 2
      (Some 1%Z) None 3 3 = (Some o, st)
    ∧ 1 ≤ draws st ∧ (Z.of_nat (draws st) ≤ 3)%Z
    ∧ ((∃ s vs cs, o = Returned s vs cs
          ∧ o = finish Z.le
                  (attempt (stream_of [0; 0; 1; 0; 1; 1; 0; 1; 0]) [1; 2]%Z
                     (Z.to_nat 2) (draws st - 1))
          ∧ check Z.le [1; 2]%Z 2 (Some 1%Z) None
              (attempt (stream_of [0; 0; 1; 0; 1; 1; 0; 1; 0]) [1; 2]%Z
                 (Z.to_nat 2) (draws st - 1)) = false
          ∧ ∀ b, b < draws st - 1 →
                 check Z.le [1; 2]%Z 2 (Some 1%Z) None
                   (attempt (stream_of [0; 0; 1; 0; 1; 1; 0; 1; 0]) [1; 2]%Z
                      (Z.to_nat 2) b) = true)
       ∨ (o = StopIteration 3
          ∧ Z.of_nat (draws st) = 3%Z ∧ Z.of_nat (iters st) = 3%Z
          ∧ ∀ b, (Z.of_nat b < 3)%Z →
                 check Z.le [1; 2]%Z 2 (Some 1%Z) None
                   (attempt (stream_of [0; 0; 1; 0; 1; 1; 0; 1; 0]) [1; 2]%Z
                      (Z.to_nat 2) b) = true)).
Proof.
  apply (bounded_draws Z.le (stream_of [0; 0; 1; 0; 1; 1; 0; 1; 0])
           [1; 2]%Z 2 (Some 1%Z) None 3 3); [discriminate|lia|lia|lia].
Defined.
End budget_run.
